(** * Device identity module of mission-control (src/unnamed/part_000)

    Shallow embedding of the TypeScript module that generates, persists and
    reloads an Ed25519 device identity, derives the device id from the public
    key and builds the canonical payload that is signed.

    The JavaScript runtime services the module calls (node:crypto, JSON,
    Date.now, key generation) are bundled in the record [runtime]; the
    file system used through node:fs is modelled concretely in [world]. *)

From Stdlib Require Import String Ascii ZArith List Bool Lia.
From stdpp Require Import base gmap strings list.

Local Open Scope Z_scope.
Local Set Warnings "-register-all".

(* ------------------------------------------------------------------ *)
(** ** JavaScript values produced by JSON.parse *)

Inductive json : Type :=
| JNull
| JBool (b : bool)
| JNum (z : Z)                 (* numbers; only integers occur here *)
| JStr (s : string)
| JArr (l : list json)
| JObj (fields : list (string * json)).

(** Property read [v.k]: [None] is [undefined].  JSON.parse keeps the last
    of duplicated keys, so the last binding wins.  Reading a property of a
    non-object (null, number, string, array) gives [undefined] for the
    property names used here. *)
Fixpoint assoc_last (k : string) (fs : list (string * json)) : option json :=
  match fs with
  | [] => None
  | (k', v) :: fs' =>
      match assoc_last k fs' with
      | Some v' => Some v'
      | None => if String.eqb k k' then Some v else None
      end
  end.

Definition get (v : json) (k : string) : option json :=
  match v with
  | JObj fs => assoc_last k fs
  | _ => None
  end.

(** [v === 1] *)
Definition strict_eq_1 (v : option json) : bool :=
  match v with
  | Some (JNum z) => Z.eqb z 1
  | _ => false
  end.

(** JavaScript truthiness of a (possibly undefined) value. *)
Definition truthy (v : option json) : bool :=
  match v with
  | None => false
  | Some JNull => false
  | Some (JBool b) => b
  | Some (JNum z) => negb (Z.eqb z 0)
  | Some (JStr s) => negb (String.eqb s "")
  | Some (JArr _) => true
  | Some (JObj _) => true
  end.

(* ------------------------------------------------------------------ *)
(** ** Bytes, hexadecimal, decimal *)

Definition bytes := list Byte.byte.

Fixpoint bytes_eqb (a b : bytes) : bool :=
  match a, b with
  | [], [] => true
  | x :: a', y :: b' => Byte.eqb x y && bytes_eqb a' b'
  | _, _ => false
  end.

(** const ED25519_SPKI_PREFIX = Buffer.from('302a300506032b6570032100', 'hex') *)
Definition ED25519_SPKI_PREFIX : bytes :=
  [Byte.x30; Byte.x2a; Byte.x30; Byte.x05; Byte.x06; Byte.x03;
   Byte.x2b; Byte.x65; Byte.x70; Byte.x03; Byte.x21; Byte.x00].

Definition hex_digit (n : nat) : ascii :=
  match n with
  | 0%nat => "0" | 1%nat => "1" | 2%nat => "2" | 3%nat => "3"
  | 4%nat => "4" | 5%nat => "5" | 6%nat => "6" | 7%nat => "7"
  | 8%nat => "8" | 9%nat => "9" | 10%nat => "a" | 11%nat => "b"
  | 12%nat => "c" | 13%nat => "d" | 14%nat => "e" | _ => "f"
  end%char.

(** [digest('hex')]: two lowercase hex digits per byte. *)
Fixpoint hex (b : bytes) : string :=
  match b with
  | [] => EmptyString
  | x :: b' =>
      let n := Byte.to_nat x in
      String (hex_digit (Nat.div n 16)) (String (hex_digit (Nat.modulo n 16)) (hex b'))
  end.

Definition digit_char (d : Z) : ascii := ascii_of_nat (48 + Z.to_nat d).

Fixpoint digits_aux (fuel : nat) (n : Z) (acc : string) : string :=
  match fuel with
  | O => acc
  | S f =>
      let acc' := String (digit_char (n mod 10)) acc in
      if n <? 10 then acc' else digits_aux f (n / 10) acc'
  end.

(** [String(n)] for an integral number in the safe-integer range. *)
Definition string_of_Z (n : Z) : string :=
  if n <? 0 then String "-" (digits_aux 64 (- n) EmptyString)
  else digits_aux 64 n EmptyString.

(* ------------------------------------------------------------------ *)
(** ** buildDeviceAuthPayload *)

Record AuthParams := mkAuthParams {
  p_deviceId : string;
  p_clientId : string;
  p_clientMode : string;
  p_role : string;
  p_scopes : list string;
  p_signedAtMs : Z;
  p_token : option string;       (* string | null *)
  p_nonce : option string        (* nonce?: string *)
}.

Definition nonce_truthy (n : option string) : bool :=
  match n with
  | Some s => negb (String.eqb s "")
  | None => false
  end.

(** The [base] array of the source, after the optional push. *)
Definition payload_fields (p : AuthParams) : list string :=
  let version := if nonce_truthy (p_nonce p) then "v2" else "v1" in
  let scopeStr := String.concat "," (p_scopes p) in
  let token := match p_token p with Some t => t | None => "" end in
  let base := [version; p_deviceId p; p_clientId p; p_clientMode p; p_role p;
               scopeStr; string_of_Z (p_signedAtMs p); token] in
  if String.eqb version "v2"
  then base ++ [match p_nonce p with Some n => n | None => "" end]
  else base.

Definition buildDeviceAuthPayload (p : AuthParams) : string :=
  String.concat "|" (payload_fields p).

(* ------------------------------------------------------------------ *)
(** ** derivePublicKeyRaw, on the exported SPKI DER bytes *)

(** if (spki.length === PREFIX.length + 32 &&
        spki.subarray(0, PREFIX.length).equals(PREFIX))
      return spki.subarray(PREFIX.length);
    return spki; *)
Definition spki_raw (spki : bytes) : bytes :=
  if Nat.eqb (length spki) (length ED25519_SPKI_PREFIX + 32)
     && bytes_eqb (firstn (length ED25519_SPKI_PREFIX) spki) ED25519_SPKI_PREFIX
  then skipn (length ED25519_SPKI_PREFIX) spki
  else spki.


(* ------------------------------------------------------------------ *)
(** ** Runtime services *)

Record runtime := mkRuntime {
  (** [crypto.createPublicKey(k).export({type:'spki', format:'der'})];
      [None] when createPublicKey throws on [k] *)
  spki_export : json -> option bytes;
  (** [crypto.createHash('sha256').update(b).digest()] *)
  sha256 : bytes -> bytes;
  (** the [n]-th [crypto.generateKeyPairSync('ed25519')], exported as
      (SPKI PEM, PKCS8 PEM) *)
  keygen : nat -> string * string;
  (** [JSON.parse]; [None] when it throws a SyntaxError *)
  json_parse : string -> option json;
  (** [JSON.stringify(v, null, 2)] *)
  json_stringify : json -> string
}.

(* ------------------------------------------------------------------ *)
(** ** File system and process state *)

Record file := mkFile { fdata : string; fmode : Z }.

Record world := mkWorld {
  w_files : gmap string file;
  w_dirs : gset string;
  w_locked : gset string;   (* directories in which no entry may be created *)
  w_umask : Z;
  w_now : Z;                (* Date.now() *)
  w_rng : nat               (* keys drawn so far from generateKeyPairSync *)
}.

(** The process is not privileged: access follows the owner bits. *)
Definition readable (f : file) : bool := Z.testbit (fmode f) 8.
Definition writable (f : file) : bool := Z.testbit (fmode f) 7.

Inductive err := ENOENT | EACCES | EISDIR | EEXIST | SyntaxError | KeyError.

Inductive result (A : Type) :=
| Ok (a : A) (w : world)
| Throw (e : err) (w : world).
Arguments Ok {A}.
Arguments Throw {A}.

Definition M (A : Type) := world -> result A.

Global Instance M_ret : MRet M := fun A a w => Ok a w.
Global Instance M_bind : MBind M := fun A B k m w =>
  match m w with
  | Ok a w' => k a w'
  | Throw e w' => Throw e w'
  end.

Definition throw {A} (e : err) : M A := fun w => Throw e w.
Definition get_world : M world := fun w => Ok w w.
Definition put_world (w : world) : M unit := fun _ => Ok tt w.

(** try { m } catch { h } *)
Definition try_catch {A} (m : M A) (h : err -> M A) : M A := fun w =>
  match m w with
  | Ok a w' => Ok a w'
  | Throw e w' => h e w'
  end.

Definition lift_opt {A} (e : err) (o : option A) : M A :=
  match o with Some a => mret a | None => throw e end.

(** Prefix of [s] before its last '/', if any. *)
Fixpoint before_last_slash (s : string) : option string :=
  match s with
  | EmptyString => None
  | String c s' =>
      match before_last_slash s' with
      | Some pre => Some (String c pre)
      | None => if Ascii.eqb c "/" then Some EmptyString else None
      end
  end.

(** [path.dirname] for a path without trailing separator. *)
Definition dirname (p : string) : string :=
  match before_last_slash p with
  | None => "."
  | Some EmptyString => "/"
  | Some d => d
  end.

Definition nl : string := String (ascii_of_nat 10) EmptyString.

Definition set_files (w : world) (fs : gmap string file) : world :=
  mkWorld fs (w_dirs w) (w_locked w) (w_umask w) (w_now w) (w_rng w).
Definition set_dirs (w : world) (ds : gset string) : world :=
  mkWorld (w_files w) ds (w_locked w) (w_umask w) (w_now w) (w_rng w).
Definition set_rng (w : world) (n : nat) : world :=
  mkWorld (w_files w) (w_dirs w) (w_locked w) (w_umask w) (w_now w) n.

(* ------------------------------------------------------------------ *)
(** ** node:fs and Date *)

(** fs.existsSync(p) *)
Definition existsSync (p : string) : M bool := fun w =>
  Ok (bool_decide (is_Some (w_files w !! p)) || bool_decide (p ∈ w_dirs w)) w.

(** fs.readFileSync(p, 'utf8') *)
Definition readFileSync (p : string) : M string := fun w =>
  if bool_decide (p ∈ w_dirs w) then Throw EISDIR w else
  match w_files w !! p with
  | None => Throw ENOENT w
  | Some f => if readable f then Ok (fdata f) w else Throw EACCES w
  end.

(** fs.mkdirSync(d, { recursive: true }): succeeds at once on an existing
    directory; missing intermediate directories are not tracked. *)
Definition mkdirSync (d : string) : M unit := fun w =>
  if bool_decide (d ∈ w_dirs w) then Ok tt w
  else if bool_decide (is_Some (w_files w !! d)) then Throw EEXIST w
  else if bool_decide (dirname d ∈ w_locked w) then Throw EACCES w
  else Ok tt (set_dirs w ({[ d ]} ∪ w_dirs w)).

(** fs.writeFileSync(p, data, { mode }): the mode (minus the umask) is
    applied only when the file is created; an existing file keeps its
    mode and has its contents replaced. *)
Definition writeFileSync (p : string) (data : string) (mode : Z) : M unit := fun w =>
  if bool_decide (p ∈ w_dirs w) then Throw EISDIR w else
  match w_files w !! p with
  | Some f =>
      if writable f then Ok tt (set_files w (<[ p := mkFile data (fmode f) ]> (w_files w)))
      else Throw EACCES w
  | None =>
      if bool_decide (dirname p ∈ w_dirs w) then
        if bool_decide (dirname p ∈ w_locked w) then Throw EACCES w
        else Ok tt (set_files w (<[ p := mkFile data (Z.land mode (Z.lnot (w_umask w))) ]> (w_files w)))
      else Throw ENOENT w
  end.

(** Date.now() *)
Definition Date_now : M Z := fun w => Ok (w_now w) w.

(* ------------------------------------------------------------------ *)
(** ** The identity module *)

Record DeviceIdentity := mkIdentity {
  deviceId : string;
  publicKeyPem : json;     (* a string when generated; any JSON value when loaded *)
  privateKeyPem : json
}.

Section Identity.
Variable rt : runtime.

(** crypto.generateKeyPairSync('ed25519') and the two exports *)
Definition draw_keypair : M (string * string) := fun w =>
  Ok (keygen rt (w_rng w)) (set_rng w (S (w_rng w))).

Definition JSON_parse (s : string) : M json := lift_opt SyntaxError (json_parse rt s).

(** derivePublicKeyRaw(publicKeyPem); [None] stands for [undefined],
    on which createPublicKey throws too. *)
Definition derivePublicKeyRaw (k : option json) : M bytes :=
  match k with
  | None => throw KeyError
  | Some k =>
      spki ← lift_opt KeyError (spki_export rt k);
      mret (spki_raw spki)
  end.

(** fingerprintPublicKey(publicKeyPem) *)
Definition fingerprintPublicKey (k : option json) : M string :=
  raw ← derivePublicKeyRaw k;
  mret (hex (sha256 rt raw)).

(** generateIdentity() *)
Definition generateIdentity : M DeviceIdentity :=
  '(pub, priv) ← draw_keypair;
  d ← fingerprintPublicKey (Some (JStr pub));
  mret (mkIdentity d (JStr pub) (JStr priv)).

(** The test on the parsed document and the recomputation of the id. *)
Definition load_record (parsed : json) : M (option DeviceIdentity) :=
  if strict_eq_1 (get parsed "version")
     && truthy (get parsed "deviceId")
     && truthy (get parsed "publicKeyPem")
     && truthy (get parsed "privateKeyPem")
  then
    derivedId ← fingerprintPublicKey (get parsed "publicKeyPem");
    mret (Some (mkIdentity derivedId
                  (default JNull (get parsed "publicKeyPem"))
                  (default JNull (get parsed "privateKeyPem"))))
  else mret None.

(** The body of the [try] block; [Some] is its early return. *)
Definition try_load (filePath : string) : M (option DeviceIdentity) :=
  existsSync filePath ≫= fun present : bool =>
  if present then
    raw ← readFileSync filePath;
    parsed ← JSON_parse raw;
    load_record parsed
  else mret None.

(** The object [stored] written by the create path. *)
Definition stored_record (identity : DeviceIdentity) (now : Z) : json :=
  JObj [("version", JNum 1);
        ("deviceId", JStr (deviceId identity));
        ("publicKeyPem", publicKeyPem identity);
        ("privateKeyPem", privateKeyPem identity);
        ("createdAtMs", JNum now)].

(** The statements after the try/catch. *)
Definition create_identity (filePath : string) : M DeviceIdentity :=
  identity ← generateIdentity;
  mkdirSync (dirname filePath);;
  now ← Date_now;
  writeFileSync filePath (json_stringify rt (stored_record identity now) +:+ nl) 384;;
  mret identity.

(** loadOrCreateDeviceIdentity(filePath) *)
Definition loadOrCreateDeviceIdentity (filePath : string) : M DeviceIdentity :=
  r ← try_catch (try_load filePath) (fun _ => mret None);
  match r with
  | Some identity => mret identity
  | None => create_identity filePath
  end.

End Identity.

(* ------------------------------------------------------------------ *)
(** ** base64UrlEncode, publicKeyRawBase64Url, signDevicePayload *)

Definition byte_val (x : Byte.byte) : Z := Z.of_nat (Byte.to_nat x).

(** The character of a sextet in the base64 alphabet (RFC 4648, table 1). *)
Definition b64_char (d : Z) : ascii :=
  if d <? 26 then ascii_of_nat (Z.to_nat (65 + d))
  else if d <? 52 then ascii_of_nat (Z.to_nat (97 + (d - 26)))
  else if d <? 62 then ascii_of_nat (Z.to_nat (48 + (d - 52)))
  else if d =? 62 then "+"%char else "/"%char.

(** [buf.toString('base64')]: three bytes a, b, c give the sextets
    a >> 2, (a & 3) << 4 | b >> 4, (b & 15) << 2 | c >> 6 and c & 63
    (written below with division and remainder); a last group of one or
    two bytes is completed with zero bits and padded with '='. *)
Fixpoint base64 (buf : bytes) : string :=
  match buf with
  | [] => EmptyString
  | [x] =>
      let a := byte_val x in
      String (b64_char (a / 4)) (String (b64_char ((a mod 4) * 16)) "==")
  | [x; y] =>
      let a := byte_val x in
      let b := byte_val y in
      String (b64_char (a / 4))
        (String (b64_char ((a mod 4) * 16 + b / 16))
          (String (b64_char ((b mod 16) * 4)) "="))
  | x :: y :: z :: rest =>
      let a := byte_val x in
      let b := byte_val y in
      let c := byte_val z in
      String (b64_char (a / 4))
        (String (b64_char ((a mod 4) * 16 + b / 16))
          (String (b64_char ((b mod 16) * 4 + c / 64))
            (String (b64_char (c mod 64)) (base64 rest))))
  end.

(** [s.replaceAll(c, d)] for one-character strings [c] and [d]. *)
Fixpoint replaceAll_char (c d : ascii) (s : string) : string :=
  match s with
  | EmptyString => EmptyString
  | String a s' => String (if Ascii.eqb a c then d else a) (replaceAll_char c d s')
  end.

Fixpoint all_eq_sign (s : string) : bool :=
  match s with
  | EmptyString => true
  | String a s' => Ascii.eqb a "=" && all_eq_sign s'
  end.

(** [s.replace(/=+$/g, '')]: the leftmost match of [=+] that ends at the
    end of the input starts at the first position from which only '='
    follow; that run is removed, and no further match exists. *)
Fixpoint strip_trailing_eq (s : string) : string :=
  match s with
  | EmptyString => EmptyString
  | String a s' =>
      if Ascii.eqb a "=" && all_eq_sign s' then EmptyString
      else String a (strip_trailing_eq s')
  end.

(** base64UrlEncode(buf) *)
Definition base64UrlEncode (buf : bytes) : string :=
  strip_trailing_eq (replaceAll_char "/" "_" (replaceAll_char "+" "-" (base64 buf))).

Section Wire.
Variable rt : runtime.

(** publicKeyRawBase64Url(publicKeyPem) *)
Definition publicKeyRawBase64Url (publicKeyPem : option json) : M string :=
  raw ← derivePublicKeyRaw rt publicKeyPem;
  mret (base64UrlEncode raw).

End Wire.

Definition byte_of_nat (n : nat) : Byte.byte := byte_of_ascii (ascii_of_nat n).

(** [Buffer.from(s, 'utf8')], the characters of [s] being the code points
    U+0000 to U+00FF: one byte below U+0080, two bytes from U+0080 on. *)
Fixpoint utf8 (s : string) : bytes :=
  match s with
  | EmptyString => []
  | String c s' =>
      let n := nat_of_ascii c in
      if (n <? 128)%nat then byte_of_ascii c :: utf8 s'
      else byte_of_nat (192 + n / 64) :: byte_of_nat (128 + n mod 64) :: utf8 s'
  end.

Section Signing.
Context {key : Type}.
(** [crypto.createPrivateKey(pem)]; [None] when it throws *)
Variable createPrivateKey : json -> option key.
(** [crypto.sign(null, data, key)]; [None] when it throws *)
Variable sign : key -> bytes -> option bytes.

(** signDevicePayload(privateKeyPem, payload); errors of node:crypto are
    reported as [KeyError]. *)
Definition signDevicePayload (privateKeyPem : json) (payload : string) : M string :=
  k ← lift_opt KeyError (createPrivateKey privateKeyPem);
  sig ← lift_opt KeyError (sign k (utf8 payload));
  mret (base64UrlEncode sig).

End Signing.

(* ------------------------------------------------------------------ *)
(** ** A concrete runtime and file systems for test runs

    [rt0] behaves like Node on the inputs used below: it knows the
    SPKI PEM of the RFC 8032 test Ed25519 key and of the RFC 7748 test
    X25519 key, always generates the RFC 8032 key pair, prints JSON
    compactly and parses back the documents it knows.  Its digest is a
    stand-in of the right length, not SHA-256. *)

Definition hexval (c : ascii) : nat :=
  let n := nat_of_ascii c in if Nat.leb n 57 then n - 48 else n - 87.

Fixpoint bytes_of_hex (s : string) : bytes :=
  match s with
  | String a (String b s') =>
      match Byte.of_nat (16 * hexval a + hexval b) with
      | Some x => x :: bytes_of_hex s'
      | None => bytes_of_hex s'
      end
  | _ => []
  end.

Definition ed25519_key : bytes :=
  bytes_of_hex "d75a980182b10ab7d54bfed3c964073a0ee172f3daa62325af021a68f707511a".
Definition ed25519_spki_der : bytes := ED25519_SPKI_PREFIX ++ ed25519_key.
Definition x25519_spki_der : bytes :=
  bytes_of_hex "302a300506032b656e0321008520f0098930a754748b7ddcb43ef75a0dbf3a0d26381af4eba4a98eaa9b4e6a".

Definition pem (label body : string) : string :=
  "-----BEGIN " +:+ label +:+ "-----" +:+ nl +:+ body +:+ nl +:+
  "-----END " +:+ label +:+ "-----" +:+ nl.

Definition pem_ed_pub : string :=
  pem "PUBLIC KEY" "MCowBQYDK2VwAyEA11qYAYKxCrfVS/7TyWQHOg7hcvPapiMlrwIaaPcHURo=".
Definition pem_ed_priv : string :=
  pem "PRIVATE KEY" "MC4CAQAwBQYDK2VwBCIEIJ1hsZ3v/VpguoRK9JLsLMREScVpezJpGXA7rAMcrn9g".
Definition pem_x_pub : string :=
  pem "PUBLIC KEY" "MCowBQYDK2VuAyEAhSDwCYkwp1R0i33ctD73Wg2/Og0mOBr066SpjqqbTmo=".

Definition dq : string := String (ascii_of_nat 34) EmptyString.

Fixpoint show_json (j : json) : string :=
  match j with
  | JNull => "null"
  | JBool true => "true"
  | JBool false => "false"
  | JNum z => string_of_Z z
  | JStr s => dq +:+ s +:+ dq
  | JArr l =>
      "[" +:+ (fix go (l : list json) : string :=
                 match l with
                 | [] => EmptyString
                 | [x] => show_json x
                 | x :: l' => show_json x +:+ "," +:+ go l'
                 end) l +:+ "]"
  | JObj fs =>
      "{" +:+ (fix go (fs : list (string * json)) : string :=
                 match fs with
                 | [] => EmptyString
                 | [(k, v)] => dq +:+ k +:+ dq +:+ ":" +:+ show_json v
                 | (k, v) :: fs' => dq +:+ k +:+ dq +:+ ":" +:+ show_json v +:+ "," +:+ go fs'
                 end) fs +:+ "}"
  end.

Definition spki_export0 (k : json) : option bytes :=
  match k with
  | JStr s =>
      if String.eqb s pem_ed_pub then Some ed25519_spki_der
      else if String.eqb s pem_x_pub then Some x25519_spki_der
      else None
  | _ => None
  end.

Definition digest0 (b : bytes) : bytes := firstn 32 (b ++ repeat Byte.x00 32).

Definition now0 : Z := 1700000000000.

(** The identity [rt0] generates, and the documents its JSON.parse knows. *)
Definition identity0 : DeviceIdentity :=
  mkIdentity (hex (digest0 (spki_raw ed25519_spki_der))) (JStr pem_ed_pub) (JStr pem_ed_priv).

(** A record with a tampered deviceId and an X25519 public key. *)
Definition doc_x25519 : json :=
  JObj [("version", JNum 1); ("deviceId", JStr "tampered");
        ("publicKeyPem", JStr pem_x_pub); ("privateKeyPem", JStr pem_ed_priv);
        ("createdAtMs", JNum now0)].

(** A record with the field names publicKey / privateKey / createdAt. *)
Definition doc_spec_names : json :=
  JObj [("version", JNum 1); ("deviceId", JStr (deviceId identity0));
        ("publicKey", JStr pem_ed_pub); ("privateKey", JStr pem_ed_priv);
        ("createdAt", JNum now0)].

Definition known_docs : list json :=
  [stored_record identity0 now0; doc_x25519; doc_spec_names].

Definition json_parse0 (s : string) : option json :=
  find (fun j => String.eqb (show_json j +:+ nl) s) known_docs.

Definition rt0 : runtime :=
  mkRuntime spki_export0 digest0 (fun _ => (pem_ed_pub, pem_ed_priv)) json_parse0 show_json.

Definition identity_dir0 : string := "/home/u/.mission-control/identity".
Definition path0 : string := identity_dir0 +:+ "/device.json".

Definition world_with (files : gmap string file) : world :=
  mkWorld files {[ "/"; "/home"; "/home/u"; "/home/u/.mission-control"; identity_dir0 ]}
          ∅ 18 now0 0.

(** First run: nothing on disk. *)
Definition w_fresh : world :=
  mkWorld ∅ {[ "/"; "/home"; "/home/u" ]} ∅ 18 now0 0.

Definition result_value {A} (r : result A) : option A :=
  match r with Ok a _ => Some a | Throw _ _ => None end.
Definition result_world {A} (r : result A) : world :=
  match r with Ok _ w => w | Throw _ w => w end.
Definition result_error {A} (r : result A) : option err :=
  match r with Ok _ _ => None | Throw e _ => Some e end.

Definition payload_params_example : AuthParams :=
  mkAuthParams "abc" "c1" "cli" "admin" ["read"; "write"] 1700000000000 None None.

Definition with_nonce (p : AuthParams) (n : option string) : AuthParams :=
  mkAuthParams (p_deviceId p) (p_clientId p) (p_clientMode p) (p_role p)
               (p_scopes p) (p_signedAtMs p) (p_token p) n.

Definition with_scopes (p : AuthParams) (l : list string) : AuthParams :=
  mkAuthParams (p_deviceId p) (p_clientId p) (p_clientMode p) (p_role p)
               l (p_signedAtMs p) (p_token p) (p_nonce p).

(** The string contains no [','] *)
Fixpoint no_comma (s : string) : bool :=
  match s with
  | EmptyString => true
  | String c s' => negb (Ascii.eqb c ",") && no_comma s'
  end.

(** A file whose record has a tampered deviceId and an X25519 key. *)
Definition w_x25519 : world :=
  world_with {[ path0 := mkFile (show_json doc_x25519 +:+ nl) 384 ]}.

(** A file whose record uses the field names publicKey / privateKey. *)
Definition w_spec_names : world :=
  world_with {[ path0 := mkFile (show_json doc_spec_names +:+ nl) 384 ]}.

(** A corrupt identity file with mode 000. *)
Definition w_unreadable : world :=
  world_with {[ path0 := mkFile "{" 0 ]}.

(** First run under a configuration directory that is not writable. *)
Definition w_nowrite : world :=
  mkWorld ∅ {[ "/"; "/home"; "/home/u"; "/home/u/.mission-control" ]}
          {[ "/home/u/.mission-control" ]} 18 now0 0.

(** A stand-in signer: the Ed25519 private key of [pem_ed_priv] and a
    signature function with 64-byte output. *)
Definition createPrivateKey0 (k : json) : option bytes :=
  match k with
  | JStr s => if String.eqb s pem_ed_priv then Some ed25519_key else None
  | _ => None
  end.

Definition sign0 (k : bytes) (m : bytes) : option bytes :=
  Some (firstn 64 (m ++ k ++ repeat Byte.x00 64)).

(* ------------------------------------------------------------------ *)
(** ** Vocabulary of the statements on encodings *)

(** URL-safe base64 characters: A-Z, a-z, 0-9, '-' and '_'. *)
Definition url_safe (c : ascii) : bool :=
  let n := nat_of_ascii c in
  ((65 <=? n) && (n <=? 90))%nat || ((97 <=? n) && (n <=? 122))%nat
  || ((48 <=? n) && (n <=? 57))%nat || (n =? 45)%nat || (n =? 95)%nat.

(** Lowercase hexadecimal digits. *)
Definition hex_lower (c : ascii) : bool :=
  let n := nat_of_ascii c in
  ((48 <=? n) && (n <=? 57))%nat || ((97 <=? n) && (n <=? 102))%nat.

Fixpoint has_char (c : ascii) (s : string) : bool :=
  match s with
  | EmptyString => false
  | String a s' => Ascii.eqb a c || has_char c s'
  end.

(** [s.split(c)] for a one-character separator. *)
Fixpoint split_on (c : ascii) (s : string) : list string :=
  match s with
  | EmptyString => [EmptyString]
  | String a s' =>
      let parts := split_on c s' in
      if Ascii.eqb a c then EmptyString :: parts
      else match parts with
           | h :: t => String a h :: t
           | [] => [String a EmptyString]
           end
  end.

(** The sextets of [base64] without its padding, and their decoding. *)
Fixpoint b64_digits (buf : bytes) : list Z :=
  match buf with
  | [] => []
  | [x] => let a := byte_val x in [a / 4; (a mod 4) * 16]
  | [x; y] =>
      let a := byte_val x in let b := byte_val y in
      [a / 4; (a mod 4) * 16 + b / 16; (b mod 16) * 4]
  | x :: y :: z :: rest =>
      let a := byte_val x in let b := byte_val y in let c := byte_val z in
      [a / 4; (a mod 4) * 16 + b / 16; (b mod 16) * 4 + c / 64; c mod 64]
        ++ b64_digits rest
  end.

Fixpoint b64_pad (buf : bytes) : string :=
  match buf with
  | [] => EmptyString
  | [_] => "=="
  | [_; _] => "="
  | _ :: _ :: _ :: rest => b64_pad rest
  end.

Fixpoint decode_digits (ds : list Z) : list Z :=
  match ds with
  | d1 :: d2 :: d3 :: d4 :: rest =>
      [d1 * 4 + d2 / 16; (d2 mod 16) * 16 + d3 / 4; (d3 mod 4) * 64 + d4]
        ++ decode_digits rest
  | [d1; d2; d3] => [d1 * 4 + d2 / 16; (d2 mod 16) * 16 + d3 / 4]
  | [d1; d2] => [d1 * 4 + d2 / 16]
  | _ => []
  end.

(** The character of a sextet once '+' and '/' are replaced. *)
Definition b64url_char (d : Z) : ascii :=
  if d =? 62 then "-"%char else if d =? 63 then "_"%char else b64_char d.

(* ------------------------------------------------------------------ *)
(** ** Lemmas on strings and joins *)

Lemma str_app_nil (b : string) : EmptyString +:+ b = b.
Proof. reflexivity. Qed.

Lemma str_app_cons (c : ascii) (a b : string) : String c a +:+ b = String c (a +:+ b).
Proof. reflexivity. Qed.

Lemma str_app_assoc (a b c : string) : (a +:+ b) +:+ c = a +:+ (b +:+ c).
Proof.
  induction a as [|ch a IH]; [done|]. rewrite !str_app_cons. by f_equal.
Qed.

Lemma str_app_empty_r (a : string) : a +:+ EmptyString = a.
Proof. induction a as [|ch a IH]; [done|]. rewrite str_app_cons. by f_equal. Qed.

Lemma list_ascii_app (a b : string) :
  list_ascii_of_string (a +:+ b) = list_ascii_of_string a ++ list_ascii_of_string b.
Proof.
  induction a as [|ch a IH]; [done|]. rewrite str_app_cons. simpl. by f_equal.
Qed.

Lemma list_ascii_inj (a b : string) :
  list_ascii_of_string a = list_ascii_of_string b -> a = b.
Proof.
  intros H. rewrite <- (string_of_list_ascii_of_string a), <- (string_of_list_ascii_of_string b).
  by rewrite H.
Qed.

(** Cancelling a common suffix. *)
Lemma str_app_inv_tail (a b c : string) : a +:+ c = b +:+ c -> a = b.
Proof.
  intros H. apply (f_equal list_ascii_of_string) in H.
  rewrite !list_ascii_app in H. apply app_inv_tail in H. by apply list_ascii_inj.
Qed.

Lemma concat_cons (sep x y : string) (l : list string) :
  String.concat sep (x :: y :: l) = x +:+ (sep +:+ String.concat sep (y :: l)).
Proof. reflexivity. Qed.

Lemma concat_cons_ne (sep x : string) (l : list string) :
  l <> [] -> String.concat sep (x :: l) = x +:+ (sep +:+ String.concat sep l).
Proof. destruct l; [done|reflexivity]. Qed.

Lemma concat_snoc (sep x : string) (l : list string) :
  l <> [] -> String.concat sep (l ++ [x]) = String.concat sep l +:+ (sep +:+ x).
Proof.
  induction l as [|a l IH]; intros Hne; [done|].
  destruct l as [|b l]; [done|].
  transitivity (a +:+ (sep +:+ String.concat sep ((b :: l) ++ [x]))); [reflexivity|].
  rewrite IH by done. by rewrite (concat_cons sep a b l), !str_app_assoc.
Qed.

(** A join in which only one element differs, with something after it,
    determines that element. *)
Lemma concat_mid_inj (sep : string) (pre post : list string) (s1 s2 : string) :
  post <> [] ->
  String.concat sep (pre ++ s1 :: post) = String.concat sep (pre ++ s2 :: post) ->
  s1 = s2.
Proof.
  intros Hpost. induction pre as [|a pre IH].
  - destruct post as [|q post]; [done|]. cbn [app].
    rewrite !concat_cons, <- !str_app_assoc. intros H.
    apply str_app_inv_tail in H. by apply str_app_inv_tail in H.
  - cbn [app]. intros H. apply IH.
    rewrite !(concat_cons_ne sep a) in H by (by destruct pre).
    by apply (inj (String.append a)), (inj (String.append sep)) in H.
Qed.

Lemma comma_split (x y s t : string) :
  no_comma x = true -> no_comma y = true ->
  x +:+ String "," s = y +:+ String "," t -> x = y /\ s = t.
Proof.
  revert y. induction x as [|cx x IH]; intros [|cy y] Hx Hy H;
    rewrite ?str_app_nil, ?str_app_cons in H; simpl in Hx, Hy.
  - by injection H.
  - injection H as <- _. simpl in Hy. discriminate.
  - injection H as -> _. simpl in Hx. discriminate.
  - injection H as -> H.
    apply andb_prop in Hx as [_ Hx]. apply andb_prop in Hy as [_ Hy].
    destruct (IH y Hx Hy H) as [-> ->]. done.
Qed.

(** Array.prototype.join(',') is injective on lists of comma-free strings
    of a fixed length. *)
Lemma concat_comma_inj (l1 l2 : list string) :
  Forall (fun s => no_comma s = true) l1 -> Forall (fun s => no_comma s = true) l2 ->
  length l1 = length l2 -> String.concat "," l1 = String.concat "," l2 -> l1 = l2.
Proof.
  revert l2. induction l1 as [|x l1 IH]; intros l2 H1 H2 Hlen Hc.
  - by destruct l2.
  - destruct l2 as [|y l2]; [done|]. inversion H1; inversion H2; subst.
    destruct l1 as [|x' l1], l2 as [|y' l2]; simpl in Hlen; try done.
    + simpl in Hc. by subst.
    + rewrite !concat_cons in Hc.
      destruct (comma_split x y _ _ ltac:(done) ltac:(done) Hc) as [-> Hrest].
      f_equal. apply IH; auto.
Qed.


Lemma payload_fields_scopes (p : AuthParams) :
  exists pre post, post <> [] /\
    forall l, payload_fields (with_scopes p l) = pre ++ String.concat "," l :: post.
Proof.
  unfold payload_fields, with_scopes; simpl.
  destruct (nonce_truthy (p_nonce p)); simpl;
    eexists [_; _; _; _; _], _; apply and_comm; (split; [intros l; reflexivity|done]).
Qed.

Lemma with_scopes_self (p : AuthParams) : with_scopes p (p_scopes p) = p.
Proof. by destruct p. Qed.

Lemma Forall_swap {A} (P : A -> Prop) (a b c : list A) (x y : A) :
  Forall P (a ++ x :: b ++ y :: c) -> Forall P (a ++ y :: b ++ x :: c).
Proof.
  rewrite !Forall_app, !Forall_cons, !Forall_app, !Forall_cons. tauto.
Qed.

(* ------------------------------------------------------------------ *)
(** ** Claims on buildDeviceAuthPayload *)

(** C3 (as amended): the version tag follows the truthiness of [nonce].
    With a non-empty nonce the fields are ["v2"], the seven fields of the
    nonce-less layout after its tag, and the nonce, and the payload starts
    with "v2|"; without a nonce there are eight fields starting with "v1"
    and the payload starts with "v1|"; an empty-string nonce is treated as
    no nonce. *)
Theorem buildDeviceAuthPayload_version (p : AuthParams) (n : string) :
  (n <> ""%string ->
     payload_fields (with_nonce p (Some n))
       = ("v2" :: tl (payload_fields (with_nonce p None))) ++ [n] /\
     exists rest, buildDeviceAuthPayload (with_nonce p (Some n)) = "v2|" +:+ rest) /\
  head (payload_fields (with_nonce p None)) = Some "v1"%string /\
  length (payload_fields (with_nonce p None)) = 8%nat /\
  (exists rest, buildDeviceAuthPayload (with_nonce p None) = "v1|" +:+ rest) /\
  payload_fields (with_nonce p (Some "")) = payload_fields (with_nonce p None).
Proof.
  split; [|split_and!; [reflexivity|reflexivity|eexists; reflexivity|reflexivity]].
  intros Hn. unfold buildDeviceAuthPayload, payload_fields, with_nonce; simpl.
  destruct (String.eqb_spec n "") as [->|_]; [done|]. simpl.
  split; [reflexivity|eexists; reflexivity].
Qed.

(** C3 counterexample: a nonce that is supplied but empty yields a "v1"
    payload, not a "v2" one. *)
Lemma buildDeviceAuthPayload_empty_nonce_v1 :
  String.prefix "v2|" (buildDeviceAuthPayload
    (mkAuthParams "abc" "c1" "cli" "admin" ["read"; "write"] 1700000000000 None (Some ""))) = false /\
  buildDeviceAuthPayload
    (mkAuthParams "abc" "c1" "cli" "admin" ["read"; "write"] 1700000000000 None (Some ""))
  = "v1|abc|c1|cli|admin|read,write|1700000000000|"%string.
Proof. split; reflexivity. Qed.

Lemma buildDeviceAuthPayload_version_witness :
  "n1"%string <> ""%string /\
  payload_fields (with_nonce payload_params_example (Some "n1"))
    = ("v2" :: tl (payload_fields (with_nonce payload_params_example None))) ++ ["n1"%string].
Proof.
  split; [done|].
  apply (proj1 (buildDeviceAuthPayload_version payload_params_example "n1")). done.
Defined.

(** C7 (as amended): the example payload is as given, and a null token is
    always encoded as an empty eighth field, never omitted.  Without a nonce
    that field is the last one, so the payload ends with the delimiter; with
    a (non-empty) nonce the empty token field is followed by the nonce, so
    the payload ends with "||" and the nonce. *)
Theorem buildDeviceAuthPayload_null_token (p : AuthParams) :
  buildDeviceAuthPayload payload_params_example
    = "v1|abc|c1|cli|admin|read,write|1700000000000|"%string /\
  (p_token p = None ->
   nth_error (payload_fields p) 7 = Some ""%string /\
   (nonce_truthy (p_nonce p) = false ->
      exists pre, buildDeviceAuthPayload p = pre +:+ "|") /\
   (forall n, p_nonce p = Some n -> n <> ""%string ->
      exists pre, buildDeviceAuthPayload p = pre +:+ "||" +:+ n)).
Proof.
  split; [reflexivity|]. intros Htok.
  split_and!.
  - unfold payload_fields. rewrite Htok. by destruct (nonce_truthy (p_nonce p)).
  - intros Hn. exists (String.concat "|" (firstn 7 (payload_fields p))).
    unfold buildDeviceAuthPayload.
    replace (payload_fields p) with (firstn 7 (payload_fields p) ++ [""%string]) at 1.
    + rewrite concat_snoc, str_app_empty_r; [done|].
      unfold payload_fields. by destruct (nonce_truthy (p_nonce p)).
    + unfold payload_fields. rewrite Htok, Hn. reflexivity.
  - intros n Hn Hne. exists (String.concat "|" (firstn 7 (payload_fields p))).
    unfold buildDeviceAuthPayload.
    assert (Ht : nonce_truthy (p_nonce p) = true).
    { rewrite Hn. unfold nonce_truthy. by destruct (String.eqb_spec n ""). }
    replace (payload_fields p) with ((firstn 7 (payload_fields p) ++ [""%string]) ++ [n]) at 1.
    + rewrite !concat_snoc; [|unfold payload_fields; by rewrite Ht|by destruct (firstn 7 _)].
      rewrite str_app_empty_r, !str_app_assoc. reflexivity.
    + unfold payload_fields. rewrite Htok, Ht, Hn. reflexivity.
Qed.

(** C7 counterexample: with a nonce, a null token is not a final field and
    the payload does not end with the delimiter. *)
Lemma buildDeviceAuthPayload_null_token_with_nonce :
  buildDeviceAuthPayload (with_nonce payload_params_example (Some "n"))
    = "v2|abc|c1|cli|admin|read,write|1700000000000||n"%string /\
  ~ (exists pre, buildDeviceAuthPayload (with_nonce payload_params_example (Some "n")) = pre +:+ "|").
Proof.
  split; [reflexivity|]. intros [pre H].
  apply (f_equal (fun s => last (list_ascii_of_string s))) in H.
  rewrite list_ascii_app in H. change (list_ascii_of_string "|") with ["|"%char] in H.
  rewrite last_snoc in H. vm_compute in H. discriminate.
Qed.

Lemma buildDeviceAuthPayload_null_token_witness :
  p_token payload_params_example = None /\
  nth_error (payload_fields payload_params_example) 7 = Some ""%string.
Proof.
  split; [reflexivity|].
  apply (proj2 (buildDeviceAuthPayload_null_token payload_params_example)). reflexivity.
Defined.

(** C8 (as amended): the payload is a function of the parameters, and
    swapping two distinct scopes changes the payload whenever no scope
    contains the ',' separator. *)
Theorem buildDeviceAuthPayload_scope_order (p : AuthParams) (a b c : list string) (x y : string) :
  buildDeviceAuthPayload (with_scopes p (p_scopes p)) = buildDeviceAuthPayload p /\
  (x <> y ->
   Forall (fun s => no_comma s = true) (p_scopes p) ->
   p_scopes p = a ++ x :: b ++ y :: c ->
   buildDeviceAuthPayload p <> buildDeviceAuthPayload (with_scopes p (a ++ y :: b ++ x :: c))).
Proof.
  split; [by rewrite with_scopes_self|].
  intros Hxy Hall Hs Heq.
  destruct (payload_fields_scopes p) as (pre & post & Hpost & Hf).
  rewrite <- (with_scopes_self p) in Heq at 1. unfold buildDeviceAuthPayload in Heq.
  rewrite !Hf in Heq. apply concat_mid_inj in Heq; [|done].
  rewrite Hs in Heq, Hall.
  apply concat_comma_inj in Heq; [|done|by apply Forall_swap|].
  - apply app_inv_head in Heq. injection Heq as ->. done.
  - rewrite !length_app. simpl. rewrite !length_app. simpl. lia.
Qed.

(** C8 counterexample: swapping the distinct scopes "a" and "a,a" leaves
    the payload unchanged. *)
Lemma buildDeviceAuthPayload_scope_swap_collision :
  "a"%string <> "a,a"%string /\
  buildDeviceAuthPayload (with_scopes payload_params_example ["a"; "a,a"])
  = buildDeviceAuthPayload (with_scopes payload_params_example ["a,a"; "a"]).
Proof. split; [done|reflexivity]. Qed.

Lemma buildDeviceAuthPayload_scope_order_witness :
  Forall (fun s => no_comma s = true) (p_scopes payload_params_example) /\
  buildDeviceAuthPayload payload_params_example
  <> buildDeviceAuthPayload (with_scopes payload_params_example ["write"; "read"]).
Proof.
  split; [repeat constructor|].
  apply (proj2 (buildDeviceAuthPayload_scope_order payload_params_example [] [] [] "read" "write")).
  - done.
  - repeat constructor.
  - reflexivity.
Defined.

(** C10: the payload does not determine the parameters: a single scope
    containing ',' collides with two scopes, and a '|' inside a field
    collides with a field boundary. *)
Theorem buildDeviceAuthPayload_not_injective :
  (with_scopes payload_params_example ["a,b"] <> with_scopes payload_params_example ["a"; "b"] /\
   buildDeviceAuthPayload (with_scopes payload_params_example ["a,b"])
   = buildDeviceAuthPayload (with_scopes payload_params_example ["a"; "b"])) /\
  (mkAuthParams "a|b" "c" "cli" "admin" ["read"] 0 None None
     <> mkAuthParams "a" "b|c" "cli" "admin" ["read"] 0 None None /\
   buildDeviceAuthPayload (mkAuthParams "a|b" "c" "cli" "admin" ["read"] 0 None None)
   = buildDeviceAuthPayload (mkAuthParams "a" "b|c" "cli" "admin" ["read"] 0 None None)).
Proof.
  split; split; try reflexivity; intros H; injection H; discriminate.
Qed.

(* ------------------------------------------------------------------ *)
(** ** Lemmas on the state and exception monad *)

Lemma bind_inv {A B} (m : M A) (k : A -> M B) (w w2 : world) (b : B) :
  (m ≫= k) w = Ok b w2 -> exists a w1, m w = Ok a w1 /\ k a w1 = Ok b w2.
Proof.
  unfold mbind, M_bind. destruct (m w) as [a w1|e w1]; [eauto|discriminate].
Qed.

Lemma bind_Ok {A B} (m : M A) (k : A -> M B) (w w1 : world) (a : A) :
  m w = Ok a w1 -> (m ≫= k) w = k a w1.
Proof. unfold mbind, M_bind. by intros ->. Qed.

Lemma bind_Throw {A B} (m : M A) (k : A -> M B) (w w1 : world) (e : err) :
  m w = Throw e w1 -> (m ≫= k) w = Throw e w1.
Proof. unfold mbind, M_bind. by intros ->. Qed.

Lemma mret_Ok {A} (a b : A) (w w' : world) : (mret a : M A) w = Ok b w' -> a = b /\ w = w'.
Proof. unfold mret, M_ret. by intros [= -> ->]. Qed.

Section Facts.
Variable rt : runtime.

Lemma fingerprintPublicKey_eq (k : option json) (w : world) :
  fingerprintPublicKey rt k w =
  match k with
  | None => Throw KeyError w
  | Some k =>
      match spki_export rt k with
      | None => Throw KeyError w
      | Some spki => Ok (hex (sha256 rt (spki_raw spki))) w
      end
  end.
Proof.
  destruct k as [k|]; [|reflexivity].
  unfold fingerprintPublicKey, derivePublicKeyRaw, lift_opt.
  cbv [mbind M_bind mret M_ret throw]. by destruct (spki_export rt k).
Qed.

Lemma generateIdentity_eq (w : world) :
  generateIdentity rt w =
  let '(pub, priv) := keygen rt (w_rng w) in
  match spki_export rt (JStr pub) with
  | None => Throw KeyError (set_rng w (S (w_rng w)))
  | Some spki =>
      Ok (mkIdentity (hex (sha256 rt (spki_raw spki))) (JStr pub) (JStr priv))
         (set_rng w (S (w_rng w)))
  end.
Proof.
  unfold generateIdentity. rewrite (bind_Ok _ _ w (set_rng w (S (w_rng w))) (keygen rt (w_rng w))) by done.
  destruct (keygen rt (w_rng w)) as [pub priv]. unfold mbind, M_bind.
  rewrite fingerprintPublicKey_eq. by destruct (spki_export rt (JStr pub)).
Qed.

Lemma load_record_world (parsed : json) (w w' : world) r :
  load_record rt parsed w = Ok r w' -> w' = w.
Proof.
  unfold load_record. destruct (_ && _ && _ && _).
  - intros H. apply bind_inv in H as (d & w1 & H1 & H2).
    rewrite fingerprintPublicKey_eq in H1. apply mret_Ok in H2 as [_ <-].
    destruct (get parsed "publicKeyPem") as [k|]; [|done].
    destruct (spki_export rt k); congruence.
  - by intros [_ <-]%mret_Ok.
Qed.

Lemma load_record_Some (parsed : json) (w w' : world) (id : DeviceIdentity) :
  load_record rt parsed w = Ok (Some id) w' ->
  w' = w /\
  strict_eq_1 (get parsed "version") = true /\ truthy (get parsed "deviceId") = true /\
  get parsed "publicKeyPem" = Some (publicKeyPem id) /\
  get parsed "privateKeyPem" = Some (privateKeyPem id) /\
  exists spki, spki_export rt (publicKeyPem id) = Some spki /\
               deviceId id = hex (sha256 rt (spki_raw spki)).
Proof.
  unfold load_record.
  destruct (strict_eq_1 _) eqn:Ev, (truthy (get parsed "deviceId")) eqn:Ed,
           (truthy (get parsed "publicKeyPem")) eqn:Ep, (truthy (get parsed "privateKeyPem")) eqn:Es;
    simpl; try (intros [? _]%mret_Ok; discriminate).
  intros H. apply bind_inv in H as (d & w1 & H1 & H2). apply mret_Ok in H2 as [Hid <-].
  injection Hid as <-. rewrite fingerprintPublicKey_eq in H1.
  destruct (get parsed "publicKeyPem") as [k|]; [|done].
  destruct (get parsed "privateKeyPem") as [s|]; [|done].
  destruct (spki_export rt k) as [spki|] eqn:Ek; [|done].
  injection H1 as <- <-. simpl. split_and!; eauto.
Qed.

Lemma try_load_world (p : string) (w w' : world) r :
  try_load rt p w = Ok r w' -> w' = w.
Proof.
  unfold try_load. intros H. apply bind_inv in H as (b & w1 & H1 & H2).
  injection H1 as _ <-. destruct b.
  - apply bind_inv in H2 as (raw & w2 & H2 & H3).
    unfold readFileSync in H2. destruct (bool_decide _); [done|].
    destruct (w_files w !! p) as [f|]; [|done]. destruct (readable f); [|done].
    injection H2 as _ <-.
    apply bind_inv in H3 as (parsed & w3 & H3 & H4).
    unfold JSON_parse, lift_opt in H3. destruct (json_parse rt raw); [|done].
    apply mret_Ok in H3 as [<- <-]. by apply load_record_world in H4.
  - by apply mret_Ok in H2 as [_ <-].
Qed.

Lemma try_load_Throw_world (p : string) (w w' : world) e :
  try_load rt p w = Throw e w' -> w' = w.
Proof.
  unfold try_load, mbind, M_bind, existsSync. simpl.
  destruct (_ || _).
  - unfold readFileSync. destruct (bool_decide _); [by intros [= _ <-]|].
    destruct (w_files w !! p) as [f|]; [|by intros [= _ <-]].
    destruct (readable f); [|by intros [= _ <-]].
    unfold JSON_parse, lift_opt. destruct (json_parse rt (fdata f)) as [parsed|]; [|by intros [= _ <-]].
    unfold load_record. cbv [mbind M_bind mret M_ret].
    destruct (_ && _ && _ && _); [|done].
    rewrite fingerprintPublicKey_eq.
    destruct (get parsed "publicKeyPem") as [k|]; [|by intros [= _ <-]].
    destruct (spki_export rt k); [done|by intros [= _ <-]].
  - done.
Qed.

Lemma try_load_Some (p : string) (w w' : world) (id : DeviceIdentity) :
  try_load rt p w = Ok (Some id) w' ->
  exists f parsed, w_files w !! p = Some f /\ json_parse rt (fdata f) = Some parsed /\
                   load_record rt parsed w = Ok (Some id) w'.
Proof.
  unfold try_load. intros H. apply bind_inv in H as (b & w1 & H1 & H2).
  injection H1 as _ <-. destruct b.
  - apply bind_inv in H2 as (raw & w2 & H2 & H3).
    unfold readFileSync in H2. destruct (bool_decide _); [done|].
    destruct (w_files w !! p) as [f|] eqn:Ef; [|done]. destruct (readable f); [|done].
    injection H2 as <- <-.
    apply bind_inv in H3 as (parsed & w3 & H3 & H4).
    unfold JSON_parse, lift_opt in H3. destruct (json_parse rt (fdata f)) as [j|] eqn:Ej; [|done].
    apply mret_Ok in H3 as [<- <-]. eauto.
  - by apply mret_Ok in H2 as [? _].
Qed.

Lemma loadOrCreate_cases (p : string) (w : world) :
  loadOrCreateDeviceIdentity rt p w =
  match try_load rt p w with
  | Ok (Some id) w' => Ok id w'
  | Ok None w' => create_identity rt p w'
  | Throw _ w' => create_identity rt p w'
  end.
Proof.
  unfold loadOrCreateDeviceIdentity, try_catch, mbind, M_bind.
  by destruct (try_load rt p w) as [[id|] w'|e w'].
Qed.

Lemma mkdirSync_Ok (d : string) (w w' : world) u :
  mkdirSync d w = Ok u w' ->
  w_files w' = w_files w /\ w_locked w' = w_locked w /\ w_umask w' = w_umask w /\
  w_now w' = w_now w /\ w_rng w' = w_rng w /\ (d ∈ w_dirs w') /\ (w_dirs w ⊆ w_dirs w').
Proof.
  unfold mkdirSync. destruct (bool_decide (d ∈ w_dirs w)) eqn:E1.
  - intros [= _ <-]. apply bool_decide_eq_true in E1. done.
  - destruct (bool_decide (is_Some _)); [done|].
    destruct (bool_decide (dirname d ∈ w_locked w)); [done|].
    intros [= _ <-]. simpl. split_and!; try done; set_solver.
Qed.

Lemma writeFileSync_Ok (p data : string) (mode : Z) (w w' : world) u :
  writeFileSync p data mode w = Ok u w' ->
  (p ∉ w_dirs w) /\
  w' = set_files w (<[ p := mkFile data
                      (match w_files w !! p with
                       | Some f => fmode f
                       | None => Z.land mode (Z.lnot (w_umask w))
                       end) ]> (w_files w)).
Proof.
  unfold writeFileSync. destruct (bool_decide (p ∈ w_dirs w)) eqn:E1; [done|].
  apply bool_decide_eq_false in E1.
  destruct (w_files w !! p) as [f|].
  - destruct (writable f); [|done]. by intros [= _ <-].
  - destruct (bool_decide (dirname p ∈ w_dirs w)); [|done].
    destruct (bool_decide (dirname p ∈ w_locked w)); [done|]. by intros [= _ <-].
Qed.

Lemma create_identity_Ok (p : string) (w w' : world) (id : DeviceIdentity) :
  create_identity rt p w = Ok id w' ->
  exists pub priv spki wm,
    keygen rt (w_rng w) = (pub, priv) /\
    spki_export rt (JStr pub) = Some spki /\
    id = mkIdentity (hex (sha256 rt (spki_raw spki))) (JStr pub) (JStr priv) /\
    mkdirSync (dirname p) (set_rng w (S (w_rng w))) = Ok tt wm /\
    writeFileSync p (json_stringify rt (stored_record id (w_now w)) +:+ nl) 384 wm = Ok tt w'.
Proof.
  unfold create_identity. intros H.
  apply bind_inv in H as (id1 & wg & Hg & H).
  rewrite generateIdentity_eq in Hg.
  destruct (keygen rt (w_rng w)) as [pub priv] eqn:Ek.
  destruct (spki_export rt (JStr pub)) as [spki|] eqn:Es; [|done].
  injection Hg as <- <-.
  apply bind_inv in H as ([] & wm & Hm & H).
  apply bind_inv in H as (now & wn & Hn & H). injection Hn as <- <-.
  apply bind_inv in H as ([] & wf & Hw & H). apply mret_Ok in H as [<- <-].
  pose proof (mkdirSync_Ok _ _ _ _ Hm) as (_ & _ & _ & Hnow & _).
  simpl in Hnow. rewrite Hnow in Hw.
  exists pub, priv, spki, wm. split_and!; done.
Qed.

End Facts.

Lemma bytes_eqb_eq (a b : bytes) : bytes_eqb a b = true -> a = b.
Proof.
  revert b. induction a as [|x a IH]; intros [|y b]; simpl; try done.
  intros [Hxy Hab]%andb_prop. apply Byte.byte_dec_bl in Hxy. subst. f_equal. by apply IH.
Qed.

Lemma spki_raw_prefix (raw : bytes) :
  length raw = 32%nat -> spki_raw (ED25519_SPKI_PREFIX ++ raw) = raw.
Proof. intros Hr. unfold spki_raw. rewrite length_app, Hr. reflexivity. Qed.

Lemma spki_raw_other (spki : bytes) :
  (forall raw, spki <> ED25519_SPKI_PREFIX ++ raw \/ length raw <> 32%nat) ->
  spki_raw spki = spki.
Proof.
  intros Hno. unfold spki_raw.
  destruct (Nat.eqb_spec (length spki) (length ED25519_SPKI_PREFIX + 32)) as [Hl|]; [|done].
  destruct (bytes_eqb _ _) eqn:Heq; [|done]. exfalso.
  apply bytes_eqb_eq in Heq.
  destruct (Hno (skipn (length ED25519_SPKI_PREFIX) spki)) as [Hne|Hne]; apply Hne.
  - rewrite <- Heq at 1. by rewrite take_drop.
  - rewrite length_drop, Hl. done.
Qed.

Lemma hex_length (b : bytes) : String.length (hex b) = (2 * length b)%nat.
Proof. induction b as [|x b IH]; simpl; [done|]. rewrite IH. lia. Qed.

Lemma hex_digit_lower (n : nat) : hex_lower (hex_digit n) = true.
Proof. do 15 (destruct n as [|n]; [reflexivity|]). reflexivity. Qed.

Lemma hex_lower_all (b : bytes) : Forall (fun c => hex_lower c = true) (list_ascii_of_string (hex b)).
Proof.
  induction b as [|x b IH]; cbn [hex list_ascii_of_string]; [constructor|].
  constructor; [apply hex_digit_lower|]. constructor; [apply hex_digit_lower|]. exact IH.
Qed.

Lemma digest0_length (b : bytes) : length (digest0 b) = 32%nat.
Proof. unfold digest0. rewrite length_firstn, length_app, repeat_length. lia. Qed.


Lemma create_identity_file (rt : runtime) (p : string) (w w' : world) (id : DeviceIdentity) :
  create_identity rt p w = Ok id w' ->
  exists f, w_files w' !! p = Some f /\
    fdata f = json_stringify rt (stored_record id (w_now w)) +:+ nl /\
    fmode f = match w_files w !! p with
              | Some f0 => fmode f0
              | None => Z.land 384 (Z.lnot (w_umask w))
              end /\
    w_rng w' = S (w_rng w) /\ w_dirs w' = w_dirs (result_world (mkdirSync (dirname p) (set_rng w (S (w_rng w))))) /\
    (p ∉ w_dirs w').
Proof.
  intros H. apply create_identity_Ok in H as (pub & priv & spki & wm & _ & _ & _ & Hm & Hw).
  pose proof (mkdirSync_Ok _ _ _ _ Hm) as (Hf & _ & Hu & _ & Hr & _ & _).
  apply writeFileSync_Ok in Hw as [Hp ->]. simpl in Hf, Hu, Hr.
  rewrite Hm. simpl. rewrite Hf, Hu, lookup_insert_eq. eexists. split_and!; try done.
Qed.

Lemma loadOrCreate_eq (rt : runtime) (p : string) (w : world) :
  loadOrCreateDeviceIdentity rt p w =
  match try_load rt p w with
  | Ok (Some id) _ => Ok id w
  | _ => create_identity rt p w
  end.
Proof.
  rewrite loadOrCreate_cases.
  destruct (try_load rt p w) as [[id|] w'|e w'] eqn:E.
  - by apply try_load_world in E as ->.
  - by apply try_load_world in E as ->.
  - by apply try_load_Throw_world in E as ->.
Qed.

Lemma try_load_file (rt : runtime) (p : string) (w : world) (f : file) :
  w_files w !! p = Some f -> (p ∉ w_dirs w) -> readable f = true ->
  try_load rt p w = (parsed ← JSON_parse rt (fdata f); load_record rt parsed) w.
Proof.
  intros Hf Hd Hr. unfold try_load, existsSync. cbv [mbind M_bind].
  rewrite (bool_decide_eq_true_2 (is_Some (w_files w !! p))) by (rewrite Hf; eauto).
  unfold orb, readFileSync. rewrite bool_decide_eq_false_2 by done.
  rewrite Hf, Hr. reflexivity.
Qed.

Lemma string_eqb_empty_length (s : string) :
  String.length s <> 0%nat -> String.eqb s "" = false.
Proof. destruct s; [done|reflexivity]. Qed.

(* ------------------------------------------------------------------ *)
(** ** Claims on the identity store *)

(** C2 (as amended): the Ed25519 SPKI prefix is 12 bytes long.
    derivePublicKeyRaw throws only when createPublicKey rejects its
    argument; otherwise it returns the 32 key bytes of a 44-byte DER that
    starts with the prefix, and returns every other DER (a bare 32-byte key,
    another length or another prefix) unchanged. *)
Theorem derivePublicKeyRaw_spec (rt : runtime) (k : json) (w : world) :
  length ED25519_SPKI_PREFIX = 12%nat /\
  derivePublicKeyRaw rt (Some k) w =
    match spki_export rt k with
    | None => Throw KeyError w
    | Some spki => Ok (spki_raw spki) w
    end /\
  (forall raw, length raw = 32%nat -> spki_raw (ED25519_SPKI_PREFIX ++ raw) = raw) /\
  (forall spki, length spki = 32%nat -> spki_raw spki = spki) /\
  (forall spki, (forall raw, spki <> ED25519_SPKI_PREFIX ++ raw \/ length raw <> 32%nat) ->
                spki_raw spki = spki).
Proof.
  split_and!.
  - reflexivity.
  - unfold derivePublicKeyRaw, lift_opt. cbv [mbind M_bind mret M_ret throw].
    by destruct (spki_export rt k).
  - apply spki_raw_prefix.
  - intros spki Hl. unfold spki_raw. rewrite Hl. reflexivity.
  - apply spki_raw_other.
Qed.

(** C2 counterexample: a DER with a 15-byte prefix and 32 key bytes, and
    the 44-byte SPKI of an X25519 key, come back whole (47 and 44 bytes):
    no failure and no 32-byte output. *)
Lemma derivePublicKeyRaw_not_32 :
  spki_raw (repeat Byte.x00 15 ++ repeat Byte.x01 32) = repeat Byte.x00 15 ++ repeat Byte.x01 32 /\
  length (repeat Byte.x00 15 ++ repeat Byte.x01 32) = 47%nat /\
  derivePublicKeyRaw rt0 (Some (JStr pem_x_pub)) w_fresh = Ok x25519_spki_der w_fresh /\
  length x25519_spki_der = 44%nat.
Proof. split_and!; reflexivity. Qed.

Lemma derivePublicKeyRaw_spec_witness :
  length ed25519_key = 32%nat /\ spki_raw ed25519_spki_der = ed25519_key.
Proof.
  split; [vm_compute; reflexivity|].
  apply (proj1 (proj2 (proj2 (derivePublicKeyRaw_spec rt0 JNull w_fresh)))).
  vm_compute. reflexivity.
Defined.

(** C1 (as amended): every identity returned by loadOrCreateDeviceIdentity
    has as deviceId the hex SHA-256 digest of derivePublicKeyRaw applied to
    its own publicKeyPem, freshly generated or loaded; the stored deviceId
    is used only for its truthiness, so changing it to another non-empty
    value does not change the result; the hashed bytes are the raw 32-byte
    key exactly when the key's SPKI is the Ed25519 one (always so for keys
    from generateKeyPairSync('ed25519')). *)
Theorem loadOrCreate_deviceId (rt : runtime) (p : string) (w w' : world) (id : DeviceIdentity) :
  (loadOrCreateDeviceIdentity rt p w = Ok id w' ->
   exists spki, spki_export rt (publicKeyPem id) = Some spki /\
                deviceId id = hex (sha256 rt (spki_raw spki))) /\
  (forall raw, loadOrCreateDeviceIdentity rt p w = Ok id w' ->
   spki_export rt (publicKeyPem id) = Some (ED25519_SPKI_PREFIX ++ raw) ->
   length raw = 32%nat -> deviceId id = hex (sha256 rt raw)) /\
  (forall j1 j2 : json,
     get j1 "version" = get j2 "version" ->
     truthy (get j1 "deviceId") = truthy (get j2 "deviceId") ->
     get j1 "publicKeyPem" = get j2 "publicKeyPem" ->
     get j1 "privateKeyPem" = get j2 "privateKeyPem" ->
     load_record rt j1 = load_record rt j2).
Proof.
  assert (Hfp : loadOrCreateDeviceIdentity rt p w = Ok id w' ->
     exists spki, spki_export rt (publicKeyPem id) = Some spki /\
                  deviceId id = hex (sha256 rt (spki_raw spki))).
  { rewrite loadOrCreate_cases.
    destruct (try_load rt p w) as [[id0|] w1|e w1] eqn:E.
    - intros [= <- <-]. apply try_load_Some in E as (f & parsed & _ & _ & Hl).
      apply load_record_Some in Hl as (_ & _ & _ & _ & _ & Hs). exact Hs.
    - intros Hc. apply create_identity_Ok in Hc as (pub & priv & spki & wm & _ & Hs & -> & _).
      eauto.
    - intros Hc. apply create_identity_Ok in Hc as (pub & priv & spki & wm & _ & Hs & -> & _).
      eauto. }
  split_and!.
  - exact Hfp.
  - intros raw H Hs Hr. destruct (Hfp H) as (spki & Hs' & ->).
    assert (spki = ED25519_SPKI_PREFIX ++ raw) as -> by congruence.
    by rewrite spki_raw_prefix.
  - intros j1 j2 Hv Hd Hp Hs. unfold load_record.
    rewrite Hv, Hd, Hp, Hs. reflexivity.
Qed.

(** C1 counterexample: a record with a tampered deviceId and an X25519
    public key is accepted; its recomputed deviceId hashes the whole
    44-byte SPKI, not a 32-byte raw key. *)
Lemma loadOrCreate_x25519_hashes_44_bytes :
  result_value (loadOrCreateDeviceIdentity rt0 path0 w_x25519)
    = Some (mkIdentity (hex (digest0 x25519_spki_der)) (JStr pem_x_pub) (JStr pem_ed_priv)) /\
  spki_export rt0 (JStr pem_x_pub) = Some x25519_spki_der /\
  spki_raw x25519_spki_der = x25519_spki_der /\
  length (spki_raw x25519_spki_der) = 44%nat.
Proof. split_and!; vm_compute; reflexivity. Qed.

Lemma loadOrCreate_deviceId_witness :
  loadOrCreateDeviceIdentity rt0 path0 w_x25519
    = Ok (mkIdentity (hex (digest0 x25519_spki_der)) (JStr pem_x_pub) (JStr pem_ed_priv)) w_x25519 /\
  deviceId (mkIdentity (hex (digest0 x25519_spki_der)) (JStr pem_x_pub) (JStr pem_ed_priv))
    = hex (sha256 rt0 (spki_raw x25519_spki_der)).
Proof.
  assert (H : loadOrCreateDeviceIdentity rt0 path0 w_x25519
    = Ok (mkIdentity (hex (digest0 x25519_spki_der)) (JStr pem_x_pub) (JStr pem_ed_priv)) w_x25519)
    by (vm_compute; reflexivity).
  split; [exact H|].
  destruct (proj1 (loadOrCreate_deviceId rt0 path0 w_x25519 w_x25519 _) H) as (spki & Hs & Hd).
  rewrite Hd. simpl in Hs. vm_compute in Hs. injection Hs as <-. reflexivity.
Defined.




(** C5 (as amended): every fault of the load phase (missing file,
    unreadable file, invalid JSON, a record that fails the checks, key
    material createPublicKey rejects) is absorbed: the call then runs the
    create path on the unchanged state, so an error can only come from
    that create path (mkdir or write), and on success the fresh identity
    is persisted at the path and returned. *)
Theorem loadOrCreate_load_faults_absorbed (rt : runtime) (p : string) (w : world) :
  loadOrCreateDeviceIdentity rt p w =
    match try_load rt p w with
    | Ok (Some id) _ => Ok id w
    | _ => create_identity rt p w
    end /\
  (forall e w', loadOrCreateDeviceIdentity rt p w = Throw e w' ->
     (forall id0 w0, try_load rt p w <> Ok (Some id0) w0) /\
     create_identity rt p w = Throw e w') /\
  (forall id w', (forall id0 w0, try_load rt p w <> Ok (Some id0) w0) ->
     loadOrCreateDeviceIdentity rt p w = Ok id w' ->
     w_rng w' = S (w_rng w) /\
     exists f, w_files w' !! p = Some f /\
               fdata f = json_stringify rt (stored_record id (w_now w)) +:+ nl).
Proof.
  rewrite loadOrCreate_eq. split_and!; [done| |].
  - intros e w'. destruct (try_load rt p w) as [[id|] w1|e1 w1] eqn:E;
      [intros [=]| |]; (split; [intros id0 w0 [=]|done]).
  - intros id w' Hnot H.
    destruct (try_load rt p w) as [[id0|] w1|e1 w1] eqn:E;
      [by destruct (Hnot id0 w1)| |];
      apply create_identity_file in H as (f & Hf & Hd & _ & Hr & _); eauto.
Qed.

(** C5 counterexample: a file the process may neither read nor write
    (mode 0): reading throws EACCES, which is absorbed, but the create
    path then fails writing over it, and EACCES reaches the caller. *)
Lemma loadOrCreate_unreadable_file_fails :
  try_load rt0 path0 w_unreadable = Throw EACCES w_unreadable /\
  result_error (loadOrCreateDeviceIdentity rt0 path0 w_unreadable) = Some EACCES /\
  w_files (result_world (loadOrCreateDeviceIdentity rt0 path0 w_unreadable)) = w_files w_unreadable.
Proof. split_and!; vm_compute; reflexivity. Qed.

Lemma loadOrCreate_load_faults_absorbed_witness :
  create_identity rt0 path0 w_unreadable
    = Throw EACCES (result_world (loadOrCreateDeviceIdentity rt0 path0 w_unreadable)) /\
  w_rng (result_world (loadOrCreateDeviceIdentity rt0 path0 w_spec_names)) = 1%nat.
Proof.
  split.
  - apply (proj2 (proj1 (proj2 (loadOrCreate_load_faults_absorbed rt0 path0 w_unreadable))
                    EACCES _ ltac:(vm_compute; reflexivity))).
  - apply (proj1 (proj2 (proj2 (loadOrCreate_load_faults_absorbed rt0 path0 w_spec_names))
                    identity0 _
                    ltac:(vm_compute; intros id0 w0 [=])
                    ltac:(vm_compute; reflexivity))).
Defined.

(** C6: after a call that created and persisted an identity, the next call
    on the resulting state (file unmodified and readable, JSON.parse
    inverting JSON.stringify, 32-byte digests, non-empty PEMs) loads that
    same identity and leaves the state unchanged; so every further call
    returns the same deviceId, publicKeyPem and privateKeyPem without
    regenerating or writing. *)
Theorem loadOrCreate_round_trip (rt : runtime) (p : string) (w w1 : world) (id : DeviceIdentity)
  (Hsha : forall b, length (sha256 rt b) = 32%nat)
  (Hkeys : forall n pub priv, keygen rt n = (pub, priv) -> pub <> "" /\ priv <> "")
  (Hjson : json_parse rt (json_stringify rt (stored_record id (w_now w)) +:+ nl)
           = Some (stored_record id (w_now w)))
  (Hcreated : forall id0 w0, try_load rt p w <> Ok (Some id0) w0)
  (H : loadOrCreateDeviceIdentity rt p w = Ok id w1)
  (Hread : forall f, w_files w1 !! p = Some f -> readable f = true) :
  try_load rt p w1 = Ok (Some id) w1 /\
  loadOrCreateDeviceIdentity rt p w1 = Ok id w1.
Proof.
  assert (Hc : create_identity rt p w = Ok id w1).
  { rewrite loadOrCreate_eq in H.
    destruct (try_load rt p w) as [[id0|] w0|e0 w0]; [by destruct (Hcreated id0 w0)|done|done]. }
  pose proof Hc as Hc'.
  apply create_identity_file in Hc as (f & Hf & Hd & _ & _ & _ & Hnd).
  apply create_identity_Ok in Hc' as (pub & priv & spki & wm & Hk & Hs & Hid & _).
  destruct (Hkeys _ _ _ Hk) as [Hpub Hpriv].
  assert (Hload : try_load rt p w1 = Ok (Some id) w1).
  { rewrite (try_load_file rt p w1 f Hf Hnd (Hread f Hf)), Hd.
    unfold JSON_parse, lift_opt. cbv [mbind M_bind]. rewrite Hjson.
    unfold load_record, stored_record. rewrite Hid. cbn [get assoc_last].
    simpl. rewrite string_eqb_empty_length
      by (rewrite hex_length, Hsha; discriminate).
    apply String.eqb_neq in Hpub, Hpriv. rewrite Hpub, Hpriv. simpl.
    cbv [mbind M_bind mret M_ret]. rewrite fingerprintPublicKey_eq, Hs. reflexivity. }
  split; [done|]. rewrite loadOrCreate_eq, Hload. reflexivity.
Qed.

Lemma loadOrCreate_round_trip_witness :
  loadOrCreateDeviceIdentity rt0 path0 (result_world (loadOrCreateDeviceIdentity rt0 path0 w_fresh))
    = Ok identity0 (result_world (loadOrCreateDeviceIdentity rt0 path0 w_fresh)).
Proof.
  apply (proj2 (loadOrCreate_round_trip rt0 path0 w_fresh _ identity0
    digest0_length
    ltac:(intros n pub priv [= <- <-]; split; intros E;
          apply (f_equal String.length) in E; vm_compute in E; discriminate)
    ltac:(vm_compute; reflexivity)
    ltac:(vm_compute; intros id0 w0 [=])
    ltac:(vm_compute; reflexivity)
    ltac:(intros f Hf; vm_compute in Hf; injection Hf as <-; reflexivity))).
Defined.

(** C9: on the create path, after the key pair was generated, a failure of
    mkdirSync or of writeFileSync is not caught and is the result of
    loadOrCreateDeviceIdentity. *)
Theorem loadOrCreate_create_errors (rt : runtime) (p : string) (w wg w' : world)
  (id : DeviceIdentity) (e : err)
  (Hload : forall id0 w0, try_load rt p w <> Ok (Some id0) w0)
  (Hgen : generateIdentity rt w = Ok id wg)
  (Hfail : mkdirSync (dirname p) wg = Throw e w' \/
           exists wm, mkdirSync (dirname p) wg = Ok tt wm /\
             writeFileSync p (json_stringify rt (stored_record id (w_now wm)) +:+ nl) 384 wm
               = Throw e w') :
  loadOrCreateDeviceIdentity rt p w = Throw e w'.
Proof.
  assert (Hc : loadOrCreateDeviceIdentity rt p w = create_identity rt p w).
  { rewrite loadOrCreate_eq.
    destruct (try_load rt p w) as [[id0|] w0|e0 w0]; [by destruct (Hload id0 w0)|done|done]. }
  rewrite Hc. unfold create_identity. rewrite (bind_Ok _ _ _ _ _ Hgen).
  cbv [mbind M_bind]. destruct Hfail as [Hm|(wm & Hm & Hw)]; rewrite Hm; [done|].
  unfold Date_now. rewrite Hw. reflexivity.
Qed.

Lemma loadOrCreate_create_errors_witness :
  loadOrCreateDeviceIdentity rt0 path0 w_nowrite
    = Throw EACCES (result_world (generateIdentity rt0 w_nowrite)).
Proof.
  apply (loadOrCreate_create_errors rt0 path0 w_nowrite _ _ identity0 EACCES
    ltac:(vm_compute; intros id0 w0 [=])
    ltac:(vm_compute; reflexivity)
    ltac:(left; vm_compute; reflexivity)).
Defined.

(* ------------------------------------------------------------------ *)
(** ** Lemmas on the encodings *)

Lemma bytes_ind3 (P : bytes -> Prop) :
  P [] -> (forall x, P [x]) -> (forall x y, P [x; y]) ->
  (forall x y z r, P r -> P (x :: y :: z :: r)) -> forall b, P b.
Proof.
  intros H0 H1 H2 H3. fix IH 1. intros [|x [|y [|z r]]].
  - exact H0.
  - apply H1.
  - apply H2.
  - apply H3, IH.
Qed.

Lemma byte_val_bound (x : Byte.byte) : 0 <= byte_val x < 256.
Proof. unfold byte_val. pose proof (Byte.to_nat_bounded x). lia. Qed.

Lemma byte_val_inj (x y : Byte.byte) : byte_val x = byte_val y -> x = y.
Proof.
  unfold byte_val. intros H. apply Nat2Z.inj in H.
  pose proof (Byte.of_to_nat x) as Hx. rewrite H, Byte.of_to_nat in Hx. congruence.
Qed.

Lemma b64_group (a b c : Z) : 0 <= a < 256 -> 0 <= b < 256 -> 0 <= c < 256 ->
  (0 <= a / 4 < 64 /\ 0 <= (a mod 4) * 16 + b / 16 < 64 /\
   0 <= (b mod 16) * 4 + c / 64 < 64 /\ 0 <= c mod 64 < 64 /\
   0 <= (a mod 4) * 16 < 64 /\ 0 <= (b mod 16) * 4 < 64) /\
  a / 4 * 4 + ((a mod 4) * 16 + b / 16) / 16 = a /\
  (((a mod 4) * 16 + b / 16) mod 16) * 16 + ((b mod 16) * 4 + c / 64) / 4 = b /\
  (((b mod 16) * 4 + c / 64) mod 4) * 64 + c mod 64 = c /\
  a / 4 * 4 + ((a mod 4) * 16) / 16 = a /\
  (((a mod 4) * 16 + b / 16) mod 16) * 16 + ((b mod 16) * 4) / 4 = b.
Proof. intros. Z.div_mod_to_equations. repeat split; lia. Qed.

Lemma b64_digits_range (b : bytes) : Forall (fun d => 0 <= d < 64) (b64_digits b).
Proof.
  induction b using bytes_ind3.
  - constructor.
  - destruct (b64_group (byte_val x) 0 0) as [Hr _];
      [apply byte_val_bound|lia|lia|].
    simpl. repeat constructor; lia.
  - destruct (b64_group (byte_val x) (byte_val y) 0) as [Hr _];
      [apply byte_val_bound|apply byte_val_bound|lia|].
    simpl. repeat constructor; lia.
  - destruct (b64_group (byte_val x) (byte_val y) (byte_val z)) as [Hr _];
      try apply byte_val_bound.
    cbn [b64_digits]. apply Forall_app. split; [|done]. repeat constructor; lia.
Qed.

Lemma b64_digits_length (b : bytes) : length (b64_digits b) = ((4 * length b + 2) / 3)%nat.
Proof.
  induction b using bytes_ind3; try reflexivity.
  cbn [b64_digits]. rewrite length_app, IHb.
  replace (4 * length (x :: y :: z :: b) + 2)%nat with ((4 * length b + 2) + 4 * 3)%nat
    by (simpl; lia).
  rewrite Nat.div_add by lia. simpl. lia.
Qed.

Lemma decode_b64_digits (b : bytes) : decode_digits (b64_digits b) = map byte_val b.
Proof.
  induction b using bytes_ind3.
  - reflexivity.
  - destruct (b64_group (byte_val x) 0 0) as (_ & _ & _ & _ & H1 & _);
      [apply byte_val_bound|lia|lia|].
    cbn [b64_digits decode_digits map]. by rewrite H1.
  - destruct (b64_group (byte_val x) (byte_val y) 0) as (_ & H1 & _ & _ & _ & H2);
      [apply byte_val_bound|apply byte_val_bound|lia|].
    cbn [b64_digits decode_digits map]. by rewrite H1, H2.
  - destruct (b64_group (byte_val x) (byte_val y) (byte_val z)) as (_ & H1 & H2 & H3 & _);
      try apply byte_val_bound.
    cbn [b64_digits decode_digits map app]. by rewrite H1, H2, H3, IHb.
Qed.

Lemma base64_digits (b : bytes) :
  base64 b = string_of_list_ascii (map b64_char (b64_digits b)) +:+ b64_pad b.
Proof.
  induction b using bytes_ind3; try reflexivity.
  cbn [base64 b64_digits b64_pad]. rewrite IHb. reflexivity.
Qed.

Lemma replaceAll_app (c d : ascii) (s t : string) :
  replaceAll_char c d (s +:+ t) = replaceAll_char c d s +:+ replaceAll_char c d t.
Proof. induction s as [|a s IH]; [reflexivity|]. rewrite !str_app_cons. simpl. by rewrite IH. Qed.

Lemma replaceAll_list (c d : ascii) (l : list ascii) :
  replaceAll_char c d (string_of_list_ascii l)
  = string_of_list_ascii (map (fun a => if Ascii.eqb a c then d else a) l).
Proof. induction l as [|a l IH]; simpl; [done|]. by rewrite IH. Qed.

Lemma b64_pad_shape (b : bytes) :
  all_eq_sign (b64_pad b) = true /\
  replaceAll_char "/" "_" (replaceAll_char "+" "-" (b64_pad b)) = b64_pad b.
Proof. induction b using bytes_ind3; try done; split; reflexivity. Qed.

Lemma strip_app (s t : string) :
  Forall (fun c => c <> "="%char) (list_ascii_of_string s) -> all_eq_sign t = true ->
  strip_trailing_eq (s +:+ t) = s.
Proof.
  induction s as [|a s IH]; intros Hs Ht.
  - rewrite str_app_nil. destruct t as [|a t]; [done|].
    simpl in Ht |- *. by rewrite Ht.
  - rewrite str_app_cons. simpl in Hs. inversion Hs as [|? ? Ha Hs']; subst.
    cbn [strip_trailing_eq]. apply Ascii.eqb_neq in Ha. rewrite Ha. simpl.
    by rewrite IH.
Qed.

Lemma seq_range (P : Z -> Prop) (f : nat -> bool) :
  forallb f (seq 0 64) = true -> (forall k, f k = true -> P (Z.of_nat k)) ->
  forall d, 0 <= d < 64 -> P d.
Proof.
  intros Hall Hf d Hd. replace d with (Z.of_nat (Z.to_nat d)) by lia.
  apply Hf. rewrite forallb_forall in Hall. apply Hall, in_seq. lia.
Qed.

Lemma b64url_char_ok (d : Z) : 0 <= d < 64 ->
  url_safe (b64url_char d) = true /\ b64url_char d <> "="%char /\
  (if Ascii.eqb (if Ascii.eqb (b64_char d) "+" then "-"%char else b64_char d) "/"
   then "_"%char else if Ascii.eqb (b64_char d) "+" then "-"%char else b64_char d)
  = b64url_char d.
Proof.
  revert d. apply (seq_range _ (fun k =>
    let d := Z.of_nat k in
    url_safe (b64url_char d) && negb (Ascii.eqb (b64url_char d) "=")
    && Ascii.eqb (if Ascii.eqb (if Ascii.eqb (b64_char d) "+" then "-"%char else b64_char d) "/"
                  then "_"%char else if Ascii.eqb (b64_char d) "+" then "-"%char else b64_char d)
                 (b64url_char d))).
  - vm_compute. reflexivity.
  - intros k Hk. cbv zeta in Hk. apply andb_prop in Hk as [Hk H3].
    apply andb_prop in Hk as [H1 H2]. apply negb_true_iff, Ascii.eqb_neq in H2.
    apply Ascii.eqb_eq in H3. done.
Qed.

Lemma b64url_char_inj (d e : Z) : 0 <= d < 64 -> 0 <= e < 64 ->
  b64url_char d = b64url_char e -> d = e.
Proof.
  intros Hd He. revert e He. revert d Hd. apply (seq_range
    (fun d => forall e, 0 <= e < 64 -> b64url_char d = b64url_char e -> d = e) (fun i => forallb (fun j =>
    negb (Ascii.eqb (b64url_char (Z.of_nat i)) (b64url_char (Z.of_nat j))) || Nat.eqb i j)
    (seq 0 64))).
  - vm_compute. reflexivity.
  - intros i Hi. apply (seq_range
      (fun e => b64url_char (Z.of_nat i) = b64url_char e -> Z.of_nat i = e) (fun j =>
      negb (Ascii.eqb (b64url_char (Z.of_nat i)) (b64url_char (Z.of_nat j))) || Nat.eqb i j)).
    + exact Hi.
    + intros j Hj Heq. rewrite Heq, Ascii.eqb_refl in Hj. simpl in Hj. apply Nat.eqb_eq in Hj. by subst.
Qed.

Lemma base64UrlEncode_digits (b : bytes) :
  base64UrlEncode b = string_of_list_ascii (map b64url_char (b64_digits b)).
Proof.
  unfold base64UrlEncode. rewrite base64_digits, !replaceAll_app.
  destruct (b64_pad_shape b) as [Hall Hpad]. rewrite Hpad, !replaceAll_list, map_map.
  assert (Hm : map (fun a => if Ascii.eqb (if Ascii.eqb (b64_char a) "+" then "-"%char else b64_char a) "/"
                             then "_"%char else if Ascii.eqb (b64_char a) "+" then "-"%char else b64_char a)
                   (b64_digits b) = map b64url_char (b64_digits b)).
  { apply map_ext_Forall. eapply Forall_impl; [apply b64_digits_range|].
    intros d Hd. apply (b64url_char_ok d Hd). }
  rewrite map_map. cbv beta. rewrite Hm. apply strip_app; [|done].
  rewrite list_ascii_of_string_of_list_ascii. apply Forall_map.
  eapply Forall_impl; [apply b64_digits_range|]. intros d Hd. apply (b64url_char_ok d Hd).
Qed.

Lemma string_of_list_ascii_length (l : list ascii) :
  String.length (string_of_list_ascii l) = length l.
Proof. induction l; simpl; auto. Qed.

Lemma map_inj_Forall {A B} (P : A -> Prop) (f : A -> B) (l1 l2 : list A) :
  (forall x y, P x -> P y -> f x = f y -> x = y) ->
  Forall P l1 -> Forall P l2 -> map f l1 = map f l2 -> l1 = l2.
Proof.
  intros Hf. revert l2. induction l1 as [|x l1 IH]; intros [|y l2] H1 H2 Hm; try done.
  inversion H1; inversion H2; simpl in Hm; injection Hm as Hxy Hl. f_equal; eauto.
Qed.

Lemma hex_digit_inj (n m : nat) : (n < 16)%nat -> (m < 16)%nat -> hex_digit n = hex_digit m -> n = m.
Proof.
  assert (Hall : forallb (fun i => forallb (fun j =>
            negb (Ascii.eqb (hex_digit i) (hex_digit j)) || Nat.eqb i j) (seq 0 16)) (seq 0 16) = true)
    by (vm_compute; reflexivity).
  intros Hn Hm Heq. rewrite forallb_forall in Hall.
  specialize (Hall n ltac:(apply in_seq; lia)). rewrite forallb_forall in Hall.
  specialize (Hall m ltac:(apply in_seq; lia)).
  rewrite Heq, Ascii.eqb_refl in Hall. simpl in Hall. by apply Nat.eqb_eq.
Qed.

Lemma hex_inj_aux (a b : bytes) : hex a = hex b -> a = b.
Proof.
  revert b. induction a as [|x a IH]; intros [|y b]; cbn [hex]; try done.
  intros H.
  pose proof (f_equal (fun s => match s with String c _ => c | EmptyString => "0"%char end) H) as H1.
  pose proof (f_equal (fun s => match s with String _ (String c _) => c | _ => "0"%char end) H) as H2.
  pose proof (f_equal (fun s => match s with String _ (String _ r) => r | _ => EmptyString end) H) as H3.
  cbv beta iota in H1, H2, H3. clear H.
  pose proof (Byte.to_nat_bounded x). pose proof (Byte.to_nat_bounded y).
  assert (Hq : (Byte.to_nat x / 16 < 16)%nat) by (apply Nat.Div0.div_lt_upper_bound; lia).
  assert (Hq' : (Byte.to_nat y / 16 < 16)%nat) by (apply Nat.Div0.div_lt_upper_bound; lia).
  apply hex_digit_inj in H1; [|done|done].
  apply hex_digit_inj in H2; [|apply Nat.mod_upper_bound; lia|apply Nat.mod_upper_bound; lia].
  assert (Hxy : Byte.to_nat x = Byte.to_nat y).
  { rewrite (Nat.div_mod_eq (Byte.to_nat x) 16), (Nat.div_mod_eq (Byte.to_nat y) 16). lia. }
  f_equal; [|auto].
  pose proof (Byte.of_to_nat x) as Hx. rewrite Hxy, Byte.of_to_nat in Hx. congruence.
Qed.

Lemma has_char_app (c : ascii) (a b : string) :
  has_char c (a +:+ b) = has_char c a || has_char c b.
Proof.
  induction a as [|x a IH]; [reflexivity|].
  rewrite str_app_cons. cbn [has_char]. rewrite IH. apply orb_assoc.
Qed.

Lemma has_char_concat (c : ascii) (sep : string) (l : list string) :
  has_char c sep = false -> Forall (fun x => has_char c x = false) l ->
  has_char c (String.concat sep l) = false.
Proof.
  intros Hs. induction l as [|x l IH]; intros Hl; [done|].
  inversion Hl as [|? ? Hx Hl']; subst. destruct l as [|y l]; [done|].
  rewrite concat_cons, !has_char_app, Hx, Hs, IH by done. done.
Qed.

Lemma split_on_none (c : ascii) (x : string) : has_char c x = false -> split_on c x = [x].
Proof.
  induction x as [|a x IH]; cbn [split_on has_char]; [done|]. intros [Ha Hx]%orb_false_elim.
  rewrite Ha, IH by done. done.
Qed.

Lemma split_on_app (c : ascii) (x r : string) :
  has_char c x = false -> split_on c (x +:+ String c r) = x :: split_on c r.
Proof.
  induction x as [|a x IH]; intros Hx.
  - rewrite str_app_nil. cbn [split_on]. by rewrite Ascii.eqb_refl.
  - rewrite str_app_cons. cbn [split_on has_char] in Hx |- *. apply orb_false_elim in Hx as [Ha Hx].
    rewrite Ha, IH by done. done.
Qed.

Lemma split_on_concat (c : ascii) (l : list string) :
  l <> [] -> Forall (fun x => has_char c x = false) l ->
  split_on c (String.concat (String c EmptyString) l) = l.
Proof.
  induction l as [|x l IH]; intros Hne Hl; [done|].
  inversion Hl as [|? ? Hx Hl']; subst. destruct l as [|y l].
  - by apply split_on_none.
  - rewrite concat_cons. change (String c EmptyString +:+ ?r) with (String c r).
    rewrite split_on_app by done. f_equal. by apply IH.
Qed.

Lemma digit_char_not (c : ascii) (d : Z) : 0 <= d < 10 -> (58 <= nat_of_ascii c)%nat ->
  Ascii.eqb (digit_char d) c = false.
Proof.
  intros Hd Hc. apply Ascii.eqb_neq. intros H. unfold digit_char in H.
  apply (f_equal nat_of_ascii) in H. rewrite nat_ascii_embedding in H by lia. lia.
Qed.

Lemma digits_aux_no (c : ascii) (fuel : nat) (n : Z) (acc : string) :
  (58 <= nat_of_ascii c)%nat -> has_char c acc = false -> has_char c (digits_aux fuel n acc) = false.
Proof.
  revert n acc. induction fuel as [|f IH]; intros n acc Hc Hacc; cbn [digits_aux]; [done|].
  assert (Hd : Ascii.eqb (digit_char (n mod 10)) c = false)
    by (apply digit_char_not; [apply Z.mod_pos_bound; lia|done]).
  destruct (n <? 10); [cbn [has_char]; by rewrite Hd|]. apply IH; [done|]. cbn [has_char]. by rewrite Hd.
Qed.

Lemma string_of_Z_no_bar (n : Z) : has_char "|" (string_of_Z n) = false.
Proof.
  unfold string_of_Z.
  destruct (n <? 0); [|apply digits_aux_no; [apply Nat.leb_le|]; reflexivity].
  change (has_char "|" (String "-" (digits_aux 64 (- n) EmptyString)))
    with (false || has_char "|" (digits_aux 64 (- n) EmptyString)).
  apply digits_aux_no; [apply Nat.leb_le|]; reflexivity.
Qed.

Lemma loadOrCreate_key (rt : runtime) (p : string) (w w' : world) (id : DeviceIdentity) :
  loadOrCreateDeviceIdentity rt p w = Ok id w' ->
  exists spki, spki_export rt (publicKeyPem id) = Some spki /\
               deviceId id = hex (sha256 rt (spki_raw spki)).
Proof.
  rewrite loadOrCreate_cases.
  destruct (try_load rt p w) as [[id0|] w1|e w1] eqn:E.
  - intros [= <- <-]. apply try_load_Some in E as (f & parsed & _ & _ & Hl).
    apply load_record_Some in Hl as (_ & _ & _ & _ & _ & Hs). exact Hs.
  - intros Hc. apply create_identity_Ok in Hc as (pub & priv & spki & wm & _ & Hs & -> & _). eauto.
  - intros Hc. apply create_identity_Ok in Hc as (pub & priv & spki & wm & _ & Hs & -> & _). eauto.
Qed.

Lemma publicKeyRawBase64Url_eq (rt : runtime) (k : json) (w : world) :
  publicKeyRawBase64Url rt (Some k) w =
  match spki_export rt k with
  | Some spki => Ok (base64UrlEncode (spki_raw spki)) w
  | None => Throw KeyError w
  end.
Proof.
  unfold publicKeyRawBase64Url, derivePublicKeyRaw, lift_opt.
  cbv [mbind M_bind mret M_ret throw]. by destruct (spki_export rt k).
Qed.

Lemma signDevicePayload_eq {key} (cpk : json -> option key) (sg : key -> bytes -> option bytes)
  (pem : json) (payload : string) (w : world) :
  signDevicePayload cpk sg pem payload w =
  match cpk pem with
  | None => Throw KeyError w
  | Some k =>
      match sg k (utf8 payload) with
      | None => Throw KeyError w
      | Some sig => Ok (base64UrlEncode sig) w
      end
  end.
Proof.
  unfold signDevicePayload, lift_opt. cbv [mbind M_bind mret M_ret throw].
  destruct (cpk pem) as [k|]; [|done]. by destruct (sg k (utf8 payload)).
Qed.

(* ------------------------------------------------------------------ *)
(** ** Further properties of the module *)

(** base64UrlEncode only produces the URL-safe characters A-Z, a-z, 0-9,
    '-' and '_': no '+', '/' or '=' is left. *)
Theorem base64UrlEncode_alphabet (buf : bytes) :
  Forall (fun c => url_safe c = true) (list_ascii_of_string (base64UrlEncode buf)).
Proof.
  rewrite base64UrlEncode_digits, list_ascii_of_string_of_list_ascii. apply Forall_map.
  eapply Forall_impl; [apply b64_digits_range|]. intros d Hd. apply (b64url_char_ok d Hd).
Qed.

(** base64UrlEncode of n bytes has ceil(4n/3) characters: the padding is
    removed (32 bytes give 43 characters, 64 bytes give 86). *)
Theorem base64UrlEncode_length (buf : bytes) :
  String.length (base64UrlEncode buf) = ((4 * length buf + 2) / 3)%nat.
Proof.
  rewrite base64UrlEncode_digits, string_of_list_ascii_length, length_map.
  apply b64_digits_length.
Qed.

(** base64UrlEncode is injective: dropping the padding and replacing '+'
    and '/' loses nothing, so distinct buffers give distinct strings. *)
Theorem base64UrlEncode_inj (a b : bytes) :
  base64UrlEncode a = base64UrlEncode b -> a = b.
Proof.
  rewrite !base64UrlEncode_digits. intros H.
  apply (f_equal list_ascii_of_string) in H. rewrite !list_ascii_of_string_of_list_ascii in H.
  apply (map_inj_Forall (fun d => 0 <= d < 64)) in H;
    [|intros; by apply b64url_char_inj|apply b64_digits_range|apply b64_digits_range].
  apply (f_equal decode_digits) in H. rewrite !decode_b64_digits in H.
  apply (map_inj_Forall (fun _ => True)) in H; [done|intros; by apply byte_val_inj| |];
    apply Forall_forall; done.
Qed.

Lemma base64UrlEncode_inj_witness : ed25519_key = ed25519_key.
Proof. apply (base64UrlEncode_inj ed25519_key ed25519_key). reflexivity. Defined.

(** publicKeyRawBase64Url on a key whose SPKI is the Ed25519 prefix
    followed by 32 bytes returns those 32 bytes base64url-encoded, a
    43-character string; on any other accepted key it encodes the whole
    SPKI DER; on a key createPublicKey rejects it throws. *)
Theorem publicKeyRawBase64Url_spki (rt : runtime) (k : json) (w : world) :
  (forall raw, spki_export rt k = Some (ED25519_SPKI_PREFIX ++ raw) -> length raw = 32%nat ->
     publicKeyRawBase64Url rt (Some k) w = Ok (base64UrlEncode raw) w /\
     String.length (base64UrlEncode raw) = 43%nat) /\
  (forall spki, spki_export rt k = Some spki ->
     (forall raw, spki <> ED25519_SPKI_PREFIX ++ raw \/ length raw <> 32%nat) ->
     publicKeyRawBase64Url rt (Some k) w = Ok (base64UrlEncode spki) w) /\
  (spki_export rt k = None -> publicKeyRawBase64Url rt (Some k) w = Throw KeyError w).
Proof.
  rewrite publicKeyRawBase64Url_eq. split_and!.
  - intros raw -> Hr. rewrite spki_raw_prefix by done.
    rewrite base64UrlEncode_length, Hr. done.
  - intros spki -> Ho. by rewrite spki_raw_other.
  - by intros ->.
Qed.

Lemma publicKeyRawBase64Url_spki_witness :
  publicKeyRawBase64Url rt0 (Some (JStr pem_ed_pub)) w_fresh
    = Ok (base64UrlEncode ed25519_key) w_fresh.
Proof.
  apply (proj1 (publicKeyRawBase64Url_spki rt0 (JStr pem_ed_pub) w_fresh) ed25519_key);
    vm_compute; reflexivity.
Defined.

(** For every identity loadOrCreateDeviceIdentity returns, its public key
    can be put on the wire: publicKeyRawBase64Url succeeds on it, and it
    encodes exactly the bytes whose SHA-256 hex digest is the deviceId. *)
Theorem publicKeyRawBase64Url_deviceId (rt : runtime) (p : string) (w w' w2 : world)
  (id : DeviceIdentity) :
  loadOrCreateDeviceIdentity rt p w = Ok id w' ->
  exists raw, publicKeyRawBase64Url rt (Some (publicKeyPem id)) w2 = Ok (base64UrlEncode raw) w2 /\
              deviceId id = hex (sha256 rt raw).
Proof.
  intros H. apply loadOrCreate_key in H as (spki & Hs & Hd).
  exists (spki_raw spki). rewrite publicKeyRawBase64Url_eq, Hs. done.
Qed.

Lemma publicKeyRawBase64Url_deviceId_witness :
  exists raw, publicKeyRawBase64Url rt0 (Some (publicKeyPem identity0)) w_fresh
                = Ok (base64UrlEncode raw) w_fresh /\
              deviceId identity0 = hex (sha256 rt0 raw).
Proof.
  apply (publicKeyRawBase64Url_deviceId rt0 path0 w_fresh
           (result_world (loadOrCreateDeviceIdentity rt0 path0 w_fresh)) w_fresh identity0).
  vm_compute. reflexivity.
Defined.

(** signDevicePayload throws when createPrivateKey or crypto.sign throws;
    otherwise it returns the signature of the UTF-8 bytes of the payload,
    base64url-encoded: URL-safe characters only, 86 of them for a 64-byte
    Ed25519 signature. *)
Theorem signDevicePayload_spec {key} (cpk : json -> option key) (sg : key -> bytes -> option bytes)
  (pem : json) (payload : string) (w : world) :
  (cpk pem = None -> signDevicePayload cpk sg pem payload w = Throw KeyError w) /\
  (forall k, cpk pem = Some k -> sg k (utf8 payload) = None ->
     signDevicePayload cpk sg pem payload w = Throw KeyError w) /\
  (forall k sig, cpk pem = Some k -> sg k (utf8 payload) = Some sig ->
     signDevicePayload cpk sg pem payload w = Ok (base64UrlEncode sig) w /\
     Forall (fun c => url_safe c = true) (list_ascii_of_string (base64UrlEncode sig)) /\
     (length sig = 64%nat -> String.length (base64UrlEncode sig) = 86%nat)).
Proof.
  rewrite signDevicePayload_eq. split_and!.
  - by intros ->.
  - intros k -> ->. done.
  - intros k sig -> ->. split_and!; [done|apply base64UrlEncode_alphabet|].
    intros Hl. by rewrite base64UrlEncode_length, Hl.
Qed.

Lemma signDevicePayload_spec_witness :
  signDevicePayload createPrivateKey0 sign0 (JStr pem_ed_priv)
      (buildDeviceAuthPayload payload_params_example) w_fresh
    = Ok (base64UrlEncode (firstn 64 (utf8 (buildDeviceAuthPayload payload_params_example)
                                        ++ ed25519_key ++ repeat Byte.x00 64))) w_fresh /\
  String.length (base64UrlEncode (firstn 64 (utf8 (buildDeviceAuthPayload payload_params_example)
                                        ++ ed25519_key ++ repeat Byte.x00 64))) = 86%nat.
Proof.
  destruct (proj2 (proj2 (signDevicePayload_spec createPrivateKey0 sign0 (JStr pem_ed_priv)
              (buildDeviceAuthPayload payload_params_example) w_fresh))
              ed25519_key _ ltac:(vm_compute; reflexivity) ltac:(reflexivity))
    as (H1 & _ & H3).
  split; [exact H1|]. apply H3. vm_compute. reflexivity.
Defined.

(** The deviceId computed by fingerprintPublicKey (digest('hex')) has two
    lowercase hexadecimal characters per digest byte, and distinct digests
    give distinct deviceIds. *)
Theorem fingerprint_hex_format (d1 d2 : bytes) :
  Forall (fun c => hex_lower c = true) (list_ascii_of_string (hex d1)) /\
  String.length (hex d1) = (2 * length d1)%nat /\
  (hex d1 = hex d2 -> d1 = d2).
Proof. split_and!; [apply hex_lower_all|apply hex_length|apply hex_inj_aux]. Qed.

Lemma fingerprint_hex_format_witness : ed25519_key = ed25519_key.
Proof. apply (proj2 (proj2 (fingerprint_hex_format ed25519_key ed25519_key))). reflexivity. Defined.

(** When no field of the parameters contains '|', splitting the payload of
    buildDeviceAuthPayload on '|' gives back its fields: version, deviceId,
    clientId, clientMode, role, the scopes joined by ',', String(signedAtMs),
    the token or '', and the nonce when it is a non-empty string. *)
Theorem buildDeviceAuthPayload_split (p : AuthParams)
  (Hd : has_char "|" (p_deviceId p) = false)
  (Hc : has_char "|" (p_clientId p) = false)
  (Hm : has_char "|" (p_clientMode p) = false)
  (Hr : has_char "|" (p_role p) = false)
  (Hs : Forall (fun s => has_char "|" s = false) (p_scopes p))
  (Ht : forall t, p_token p = Some t -> has_char "|" t = false)
  (Hn : forall n, p_nonce p = Some n -> has_char "|" n = false) :
  split_on "|" (buildDeviceAuthPayload p) = payload_fields p.
Proof.
  unfold buildDeviceAuthPayload. apply split_on_concat.
  - unfold payload_fields. cbv zeta. destruct (String.eqb _ _); discriminate.
  - assert (Hsc : has_char "|" (String.concat "," (p_scopes p)) = false)
      by (apply has_char_concat; done).
    assert (Htk : has_char "|" (match p_token p with Some t => t | None => "" end) = false)
      by (destruct (p_token p); [by apply Ht|done]).
    assert (Hnc : has_char "|" (match p_nonce p with Some n => n | None => "" end) = false)
      by (destruct (p_nonce p); [by apply Hn|done]).
    pose proof (string_of_Z_no_bar (p_signedAtMs p)) as Hz.
    unfold payload_fields. cbv zeta. destruct (nonce_truthy _).
    + rewrite String.eqb_refl. cbn [app].
      repeat apply List.Forall_cons; first [assumption | reflexivity | apply List.Forall_nil].
    + change (String.eqb "v1" "v2") with false. cbv iota.
      repeat apply List.Forall_cons; first [assumption | reflexivity | apply List.Forall_nil].
Qed.

Lemma buildDeviceAuthPayload_split_witness :
  split_on "|" (buildDeviceAuthPayload (with_nonce payload_params_example (Some "n0")))
  = payload_fields (with_nonce payload_params_example (Some "n0")).
Proof.
  apply buildDeviceAuthPayload_split;
    [reflexivity|reflexivity|reflexivity|reflexivity|repeat constructor
    |intros t [=]|intros n [= <-]; reflexivity].
Defined.
